(** * log-analyzer: a shallow embedding of the formatter, the MCP manager,
      the query agent and the time tools, with the properties of the
      specification checked against the code.

    Python [str] values are sequences of Unicode code points; they are
    modelled as lists of code points ([N]).  Literals are written as UTF-8
    string literals and decoded by [u]. *)

From Stdlib Require Import NArith ZArith List Bool Lia String Ascii.
From stdpp Require Import base option list strings gmap pretty.

Local Open Scope N_scope.

(* ===================================================================== *)
(** * Python strings                                                      *)
(* ===================================================================== *)

Module Py.

Definition char := N.
Definition str := list char.

(** UTF-8 decoding of a literal (well-formed input only; a stray byte is
    kept as it is). *)
Fixpoint utf8 (bs : list N) : str :=
  match bs with
  | [] => []
  | b :: r =>
      if b <? 0x80 then b :: utf8 r
      else if b <? 0xE0 then
        match r with
        | c1 :: r1 => ((b - 0xC0) * 64 + (c1 - 0x80)) :: utf8 r1
        | _ => b :: utf8 r
        end
      else if b <? 0xF0 then
        match r with
        | c1 :: c2 :: r2 =>
            ((b - 0xE0) * 4096 + (c1 - 0x80) * 64 + (c2 - 0x80)) :: utf8 r2
        | _ => b :: utf8 r
        end
      else
        match r with
        | c1 :: c2 :: c3 :: r3 =>
            ((b - 0xF0) * 262144 + (c1 - 0x80) * 4096 + (c2 - 0x80) * 64
             + (c3 - 0x80)) :: utf8 r3
        | _ => b :: utf8 r
        end
  end.

Fixpoint bytes (s : string) : list N :=
  match s with
  | EmptyString => []
  | String a r => N_of_ascii a :: bytes r
  end.

Definition u (s : string) : str := utf8 (bytes s).
Arguments u s%_string : simpl never.

(** A one-character literal *)
Definition c_of (s : string) : char := default 0 (head (u s)).
Arguments c_of s%_string : simpl never.

Definition NL : char := 10.
Definition nl3 : str := [NL; NL; NL].
Definition nl2 : str := [NL; NL].

(** [str.isspace] on one code point; the same table decides [\s] in a
    [str] pattern and what [str.strip()] removes. *)
Definition is_space (c : char) : bool :=
  ((0x09 <=? c) && (c <=? 0x0D)) || ((0x1C <=? c) && (c <=? 0x20))
  || (c =? 0x85) || (c =? 0xA0) || (c =? 0x1680)
  || ((0x2000 <=? c) && (c <=? 0x200A))
  || (c =? 0x2028) || (c =? 0x2029) || (c =? 0x202F) || (c =? 0x205F)
  || (c =? 0x3000).

(** First code point of every run of ten decimal digits (Unicode category
    Nd, Unicode 14 as shipped with CPython 3.11).  The run at 0x1D7CE holds
    five sets of ten and is listed as five runs. *)
Definition nd_starts : list N :=
  [0x30; 0x660; 0x6F0; 0x7C0; 0x966; 0x9E6; 0xA66; 0xAE6; 0xB66; 0xBE6;
   0xC66; 0xCE6; 0xD66; 0xDE6; 0xE50; 0xED0; 0xF20; 0x1040; 0x1090; 0x17E0;
   0x1810; 0x1946; 0x19D0; 0x1A80; 0x1A90; 0x1B50; 0x1BB0; 0x1C40; 0x1C50;
   0xA620; 0xA8D0; 0xA900; 0xA9D0; 0xA9F0; 0xAA50; 0xABF0; 0xFF10; 0x104A0;
   0x10D30; 0x11066; 0x110F0; 0x11136; 0x111D0; 0x112F0; 0x11450; 0x114D0;
   0x11650; 0x116C0; 0x11730; 0x118E0; 0x11950; 0x11C50; 0x11D50; 0x11DA0;
   0x16A60; 0x16AC0; 0x16B50;
   0x1D7CE; 0x1D7D8; 0x1D7E2; 0x1D7EC; 0x1D7F6;
   0x1E140; 0x1E2F0; 0x1E950; 0x1FBF0].

Definition in_run (c lo : N) : bool := (lo <=? c) && (c <? lo + 10).

(** [\d] in a [str] pattern. *)
Definition is_digit (c : char) : bool := existsb (in_run c) nd_starts.

(** The value [int()] gives a decimal digit. *)
Definition digit_value (c : char) : N :=
  match List.find (in_run c) nd_starts with
  | Some lo => c - lo
  | None => 0
  end.

Definition truthy (s : str) : bool :=
  match s with [] => false | _ => true end.

Definition str_eqb (a b : str) : bool := bool_decide (a = b).

(** [s.lstrip()], [s.rstrip()], [s.strip()] *)
Fixpoint lstrip (s : str) : str :=
  match s with
  | c :: r => if is_space c then lstrip r else s
  | [] => []
  end.

Definition rstrip (s : str) : str := rev (lstrip (rev s)).
Definition strip (s : str) : str := rstrip (lstrip s).

(** [s.rstrip(chars)] for a one-character set *)
Fixpoint lstrip_char (x : char) (s : str) : str :=
  match s with
  | c :: r => if c =? x then lstrip_char x r else s
  | [] => []
  end.
Definition rstrip_char (x : char) (s : str) : str :=
  rev (lstrip_char x (rev s)).

(** [s.startswith(p)], [s.endswith(p)] *)
Fixpoint startswith (p s : str) : bool :=
  match p, s with
  | [], _ => true
  | a :: p', b :: s' => (a =? b) && startswith p' s'
  | _ :: _, [] => false
  end.
Definition endswith (p s : str) : bool := startswith (rev p) (rev s).

(** [sub in s] *)
Fixpoint contains (sub s : str) : bool :=
  startswith sub s
  || match s with
     | [] => false
     | _ :: s' => contains sub s'
     end.

(** [s.count(c)] for a one-character argument *)
Definition count_char (x : char) (s : str) : nat :=
  length (filter (fun c => c = x) s).

(** [s.split(sep)] for a one-character separator: never the empty list. *)
Fixpoint split (sep : char) (s : str) : list str :=
  match s with
  | [] => [[]]
  | c :: r =>
      if c =? sep then [] :: split sep r
      else match split sep r with
           | w :: ws => (c :: w) :: ws
           | [] => [[c]]
           end
  end.

(** [s.split(sep, 1)] for a one-character separator *)
Fixpoint split1 (sep : char) (s : str) : list str :=
  match s with
  | [] => [[]]
  | c :: r =>
      if c =? sep then [[]; r]
      else match split1 sep r with
           | w :: ws => (c :: w) :: ws
           | [] => [[c]]
           end
  end.

(** [sep.join(parts)] *)
Fixpoint join (sep : str) (parts : list str) : str :=
  match parts with
  | [] => []
  | [w] => w
  | w :: ws => w ++ sep ++ join sep ws
  end.

(** [s.replace(old, new)] for a non-empty [old]: occurrences are taken left
    to right and do not overlap. *)
Fixpoint replace_go (old new : str) (skip : nat) (s : str) : str :=
  match s with
  | [] => []
  | c :: r =>
      match skip with
      | S n => replace_go old new n r
      | O =>
          if startswith old s
          then new ++ replace_go old new (length old - 1) r
          else c :: replace_go old new 0 r
      end
  end.
Definition replace (old new s : str) : str := replace_go old new 0 s.

End Py.

(* ===================================================================== *)
(** * Regular expressions ([re]): a backtracking matcher                  *)
(* ===================================================================== *)

(** The patterns of the program use character classes, [^] with and
    without [re.MULTILINE], sequence, ordered alternation, groups and
    greedy repetition of a single character class; that fragment is
    embedded with the matching order of the [re] module (leftmost, greedy,
    backtracking). *)
Module Re.
Import Py.

Inductive regex : Type :=
| Eps
| Cls (p : char -> bool)          (* one character of a class *)
| Bos                             (* ^ without flags: start of the text *)
| Bol                             (* ^ with re.MULTILINE: start of a line *)
| Seq (a b : regex)
| Alt (a b : regex)               (* a|b, a first *)
| Star (p : char -> bool)         (* [..]*, greedy *)
| Grp (n : nat) (a : regex).      (* the n-th group *)

Definition Chr (c : char) : regex := Cls (N.eqb c).
Definition Plus (p : char -> bool) : regex := Seq (Cls p) (Star p).
Definition Opt (a : regex) : regex := Alt a Eps.
Fixpoint Seqs (rs : list regex) : regex :=
  match rs with
  | [] => Eps
  | [r] => r
  | r :: rs' => Seq r (Seqs rs')
  end.
Definition Lit (s : str) : regex := Seqs (map Chr s).

(** A match in progress: what was consumed since the start of the match,
    what remains, and the groups set so far. *)
Record mstate : Type := MState {
  taken : str;
  rest : str;
  groups : list (nat * str)
}.

Definition advance (c : char) (s : str) (st : mstate) : mstate :=
  MState (taken st ++ [c]) s (groups st).

(** The character before the current position; [prev0] is the one before
    the position where the match started ([None] at the start of the
    text). *)
Definition before (prev0 : option char) (st : mstate) : option char :=
  match last (taken st) with
  | None => prev0
  | Some c => Some c
  end.
Definition at_bos (prev : option char) : bool :=
  match prev with None => true | Some _ => false end.
Definition at_bol (prev : option char) : bool :=
  match prev with None => true | Some c => c =? NL end.

Definition set_group (n : nat) (from to : mstate) : mstate :=
  MState (taken to) (rest to)
         ((n, drop (length (taken from)) (taken to)) :: groups to).

Fixpoint star_go (p : char -> bool) (k : mstate -> option mstate)
    (tk : str) (gs : list (nat * str)) (s : str) : option mstate :=
  match s with
  | c :: s' =>
      if p c then
        match star_go p k (tk ++ [c]) gs s' with
        | Some r => Some r
        | None => k (MState tk s gs)
        end
      else k (MState tk s gs)
  | [] => k (MState tk s gs)
  end.

Fixpoint rmatch (r : regex) (prev0 : option char) (st : mstate)
    (k : mstate -> option mstate) : option mstate :=
  match r with
  | Eps => k st
  | Cls p =>
      match rest st with
      | c :: s => if p c then k (advance c s st) else None
      | [] => None
      end
  | Bos => if at_bos (before prev0 st) then k st else None
  | Bol => if at_bol (before prev0 st) then k st else None
  | Seq a b => rmatch a prev0 st (fun st' => rmatch b prev0 st' k)
  | Alt a b =>
      match rmatch a prev0 st k with
      | Some x => Some x
      | None => rmatch b prev0 st k
      end
  | Star p => star_go p k (taken st) (groups st) (rest st)
  | Grp n a => rmatch a prev0 st (fun st' => k (set_group n st st'))
  end.

(** One attempt at one position.  [must_advance] refuses the empty match
    (the engine sets it right after an empty match at the same place). *)
Definition match_at (r : regex) (prev0 : option char) (must_advance : bool)
    (s : str) : option mstate :=
  rmatch r prev0 (MState [] s [])
    (fun st => if must_advance && negb (truthy (taken st)) then None
               else Some st).

(** [re.match(r, s) is not None] *)
Definition matches (r : regex) (s : str) : bool :=
  match match_at r None false s with Some _ => true | None => false end.


(** Replacement templates: literal text and group references [\n]. *)
Inductive titem : Type :=
| TLit (s : str)
| TGrp (n : nat).
Definition template := list titem.

Fixpoint ngroups (r : regex) : nat :=
  match r with
  | Seq a b | Alt a b => Nat.max (ngroups a) (ngroups b)
  | Grp n a => Nat.max n (ngroups a)
  | _ => 0%nat
  end.

(** A template that names a group the pattern does not have is refused
    ([re.error]: invalid group reference) before anything is matched. *)
Definition template_ok (r : regex) (t : template) : bool :=
  forallb (fun i => match i with
                    | TLit _ => true
                    | TGrp n => bool_decide (n ≤ ngroups r)%nat
                    end) t.

Fixpoint lookup_group (n : nat) (gs : list (nat * str)) : str :=
  match gs with
  | [] => []                       (* a group that took no part is empty *)
  | (m, v) :: gs' => if bool_decide (m = n) then v else lookup_group n gs'
  end.

Definition expand (t : template) (st : mstate) : str :=
  concat (map (fun i => match i with
                        | TLit s => s
                        | TGrp n => lookup_group n (groups st)
                        end) t).

(** [re.sub(r, t, s)]: scan left to right; at a match emit the expanded
    template and go on after it, else copy one character.  [skip] counts
    the characters of the text still covered by the last match; [prev] is
    the character before the position. *)
Fixpoint sub_go (r : regex) (t : template) (skip : nat) (prev : option char)
    (s : str) : str :=
  match s with
  | [] =>
      match skip with
      | O => match match_at r prev false [] with
             | Some st => expand t st
             | None => []
             end
      | S _ => []
      end
  | c :: s' =>
      match skip with
      | S n => sub_go r t n (Some c) s'
      | O =>
          match match_at r prev false s with
          | Some st =>
              expand t st ++
              match length (taken st) with
              | S m => sub_go r t m (Some c) s'
              | O =>
                  (* after an empty match the next one must advance *)
                  match match_at r prev true s with
                  | Some st2 =>
                      expand t st2
                      ++ sub_go r t (length (taken st2) - 1) (Some c) s'
                  | None => c :: sub_go r t 0 (Some c) s'
                  end
              end
          | None => c :: sub_go r t 0 (Some c) s'
          end
      end
  end.

Definition sub (r : regex) (t : template) (s : str) : str :=
  sub_go r t 0 None s.

End Re.

(* ===================================================================== *)
(** * Exceptions, logging and a state-and-exception monad                 *)
(* ===================================================================== *)

Module Eff.
Import Py.

(** Exceptions caught by [except Exception]; [exn_text] is [str(e)]. *)
Inductive exn_kind : Type := ReErrorK | KeyErrorK | RuntimeErrorK | ExceptionK.
Record exn : Type := Exn { exn_kind_of : exn_kind; exn_text : str }.

Inductive outcome (A : Type) : Type :=
| Ok (a : A)
| Raise (e : exn).
Arguments Ok {A} a.
Arguments Raise {A} e.

(** Records sent to the module's [logger]. *)
Inductive level : Type := INFO | WARNING | ERROR.
#[global] Instance level_eq_dec : EqDecision level.
Proof. solve_decision. Defined.
Record log_record : Type := LogRecord { log_level : level; log_msg : str }.

(** A computation over a state [S] that returns or raises. *)
Definition M (S A : Type) : Type := S -> outcome A * S.

Definition ret {S A} (a : A) : M S A := fun s => (Ok a, s).
Definition raise {S A} (e : exn) : M S A := fun s => (Raise e, s).
Definition bind {S A B} (m : M S A) (k : A -> M S B) : M S B :=
  fun s => match m s with
           | (Ok a, s') => k a s'
           | (Raise e, s') => (Raise e, s')
           end.
(** [try: m except Exception as e: h e] *)
Definition try_except {S A} (m : M S A) (h : exn -> M S A) : M S A :=
  fun s => match m s with
           | (Ok a, s') => (Ok a, s')
           | (Raise e, s') => h e s'
           end.
Definition get {S} : M S S := fun s => (Ok s, s).
Definition modify {S} (f : S -> S) : M S unit := fun s => (Ok tt, f s).
Definition of_outcome {S A} (o : outcome A) : M S A := fun s => (o, s).

(** [for x in xs: body x] *)
Fixpoint for_each {S A} (xs : list A) (body : A -> M S unit) : M S unit :=
  match xs with
  | [] => ret tt
  | x :: xs' => bind (body x) (fun _ => for_each xs' body)
  end.

Declare Scope eff_scope.
Delimit Scope eff_scope with eff.
Notation "'let!' x ':=' m 'in' k" := (bind m (fun x => k))
  (at level 10, x name, m at level 200, k at level 200) : eff_scope.
Notation "'do!' m 'in' k" := (bind m (fun _ => k))
  (at level 10, m at level 200, k at level 200) : eff_scope.

End Eff.

(* ===================================================================== *)
(** * output_formatter.py                                                 *)
(* ===================================================================== *)

Module OutputFormatter.
Import Py Re Eff.
Local Open Scope eff_scope.

Definition BSL : char := 92.      (* the backslash *)
Definition DQ : char := 34.       (* the double quote *)
Definition CR : char := 13.

Definition ascii_alpha (c : char) : bool :=
  ((c_of "a" <=? c) && (c <=? c_of "z")) || ((c_of "A" <=? c) && (c <=? c_of "Z")).
Definition ascii_09 (c : char) : bool := (c_of "0" <=? c) && (c <=? c_of "9").
Definition one_of (s : string) (c : char) : bool := existsb (N.eqb c) (u s).
Definition none_of (s : string) (c : char) : bool := negb (one_of s c).
Definition L (s : string) : regex := Lit (u s).
Definition T (s : string) : titem := TLit (u s).
Arguments one_of s%_string c.
Arguments none_of s%_string c.
Arguments L s%_string.
Arguments T s%_string.

(** The logger of the module: the records emitted so far. *)
Definition logger := list log_record.
Definition log (l : level) (m : str) : M logger unit :=
  modify (fun lg => lg ++ [LogRecord l m]).

Record formatter : Type := Formatter {
  cleanup_patterns : list (regex * template);
  section_indicators : list str
}.

(** [OutputFormatter.__init__] *)
Definition init : formatter := {|
  cleanup_patterns := [
    (* \[/?[a-zA-Z0-9_\s#:;,.-]+\] *)
    (Seqs [Chr (c_of "["); Opt (Chr (c_of "/"));
           Plus (fun c => ascii_alpha c || ascii_09 c || (c =? c_of "_")
                          || is_space c || one_of "#:;,.-" c);
           Chr (c_of "]")], []);
    (* \*\*([^*]+)\*\*  ->  \1 *)
    (Seqs [L "**"; Grp 1 (Plus (none_of "*")); L "**"], [TGrp 1]);
    (* \*([^*]+)\*  ->  \1 *)
    (Seqs [L "*"; Grp 1 (Plus (none_of "*")); L "*"], [TGrp 1]);
    (* ^#+\s* *)
    (Seqs [Bol; Plus (one_of "#"); Star is_space], []);
    (* ```[a-zA-Z]*\n? *)
    (Seqs [L "```"; Star ascii_alpha; Opt (Chr NL)], []);
    (* ``` *)
    (L "```", []);
    (* `([^`]+)`  ->  \1 *)
    (Seqs [L "`"; Grp 1 (Plus (none_of "`")); L "`"], [TGrp 1]);
    (* \\n -> newline, \\t -> four spaces, \\r -> carriage return *)
    (Seqs [Chr BSL; Chr (c_of "n")], [TLit [NL]]);
    (Seqs [Chr BSL; Chr (c_of "t")], [T "    "]);
    (Seqs [Chr BSL; Chr (c_of "r")], [TLit [CR]]);
    (* an escaped quote of either kind -> the quote *)
    (Seqs [Chr BSL; Chr DQ], [TLit [DQ]]);
    (Seqs [Chr BSL; Chr (c_of "'")], [T "'"])
  ];
  section_indicators :=
    [u "分析摘要"; u "详细数据"; u "关键发现"; u "统计结果";
     u "趋势分析"; u "异常检测"; u "建议"; u "总结"; u "结论"]
|}.

Definition NO_RESULT : str := u "未获取到分析结果".
Definition NO_SPECIFIC_RESULT : str := u "分析完成，但未生成具体结果".
Definition FAILURE_NOTICE : str := u "格式化输出时出错，原始结果：" ++ [NL].

(** [re.sub(pattern, replacement, text, flags=re.MULTILINE)] on an entry of
    the pattern table: the one way it raises is [re.error]. *)
Definition re_sub (pattern : regex) (replacement : template) (text : str)
  : outcome str :=
  if template_ok pattern replacement
  then Ok (sub pattern replacement text)
  else Raise (Exn ReErrorK (u "invalid group reference")).

(** The loop of [_basic_cleanup]: [except re.error] lets every other
    exception through. *)
Fixpoint cleanup_loop (ps : list (regex * template)) (cleaned : str)
  : M logger str :=
  match ps with
  | [] => ret cleaned
  | (pattern, replacement) :: ps' =>
      let! cleaned' :=
        try_except (of_outcome (re_sub pattern replacement cleaned))
          (fun e => match exn_kind_of e with
                    | ReErrorK =>
                        (* the pattern's own text is left out of the record *)
                        do! log WARNING (u "正则表达式错误: " ++ u " -> "
                                         ++ exn_text e) in
                        ret cleaned            (* continue *)
                    | _ => raise e
                    end) in
      cleanup_loop ps' cleaned'
  end.

Definition _basic_cleanup (self : formatter) (text : str) : M logger str :=
  let cleaned := text in
  let cleaned := replace [BSL; BSL] [BSL] cleaned in
  cleanup_loop (cleanup_patterns self) cleaned.

Definition is_section (self : formatter) (line : str) : bool :=
  existsb (fun indicator => contains indicator line) (section_indicators self).

Definition last_truthy (processed_lines : list str) : bool :=
  match last processed_lines with
  | Some l => truthy l
  | None => false                 (* the list itself is empty *)
  end.

(** One turn of the loop of [_process_structured_content]. *)
Definition structured_step (self : formatter) (processed_lines : list str)
    (line : str) : list str :=
  let line := strip line in
  if negb (truthy line) then processed_lines ++ [[]]
  else if contains (u "|") line
          && bool_decide (2 ≤ count_char (c_of "|") line)%nat then
    let parts :=
      map strip (List.filter (fun part => truthy (strip part))
                             (split (c_of "|") line)) in
    match parts with
    | [] => processed_lines
    | _ => processed_lines ++ [u "  " ++ join (u " | ") parts]
    end
  else if is_section self line then
    let processed_lines :=
      if last_truthy processed_lines then processed_lines ++ [[]]
      else processed_lines in
    let line :=
      if negb (endswith (u ":") line)
      then rstrip_char (c_of "：") line ++ u ":" else line in
    processed_lines ++ [line]
  else processed_lines ++ [line].

Definition _process_structured_content (self : formatter) (text : str) : str :=
  let lines := split NL text in
  let processed_lines := fold_left (structured_step self) lines [] in
  join [NL] processed_lines.

(** The patterns of [_format_line] *)
Definition bullet_re : regex :=        (* ^[•\-\*\+]\s* *)
  Seqs [Bos; Cls (one_of "•-*+"); Star is_space].
Definition numbered_re : regex :=      (* ^(\d+)[\.\)]\s* *)
  Seqs [Bos; Grp 1 (Plus is_digit); Cls (one_of ".)"); Star is_space].
Definition quote_re : regex :=         (* ^[>\|]+\s* *)
  Seqs [Bos; Plus (one_of ">|"); Star is_space].
Definition list_item_re : regex :=     (* ^\d+\.\s *)
  Seqs [Bos; Plus is_digit; Chr (c_of "."); Cls is_space].

Definition _format_line (line : str) : str :=
  let line := sub bullet_re [T "• "] line in
  let line := sub numbered_re [TGrp 1; T ". "] line in
  let line := sub quote_re [] line in
  if contains (u ":") line && negb (endswith (u ":") line) then
    match split1 (c_of ":") line with
    | [key; value] =>
        let value := strip value in
        if truthy value then strip key ++ u ": " ++ value else line
    | _ => line
    end
  else line.

Record lines_state : Type := LinesState {
  processed_lines : list str;
  prev_line_empty : bool;
  in_list : bool
}.

(** One turn of the loop of [_process_lines]. *)
Definition lines_step (st : lines_state) (line : str) : lines_state :=
  let line := strip line in
  if negb (truthy line) then
    let processed :=
      if negb (prev_line_empty st) && bool_decide (processed_lines st ≠ [])
      then processed_lines st ++ [[]] else processed_lines st in
    LinesState processed true false
  else
    let formatted_line := _format_line line in
    let is_list_item :=
      startswith (u "• ") formatted_line || matches list_item_re formatted_line in
    let processed :=
      if is_list_item && negb (in_list st) && last_truthy (processed_lines st)
      then processed_lines st ++ [[]] else processed_lines st in
    LinesState (processed ++ [formatted_line]) false is_list_item.

Definition _process_lines (text : str) : str :=
  let lines := split NL text in
  let st := fold_left lines_step lines (LinesState [] false false) in
  join [NL] (processed_lines st).

(** The loop of [_ensure_paragraph_spacing]: [lines[i + 1]] is the head of
    what follows. *)
Fixpoint spacing_loop (self : formatter) (lines : list str) : list str :=
  match lines with
  | [] => []
  | line :: rest =>
      line ::
      match rest with
      | next :: _ =>
          if truthy line && truthy next
             && negb (startswith (u "•") line)
             && negb (startswith (u "•") next)
             && (endswith (u ":") line || is_section self line)
          then [[]] else []
      | [] => []
      end ++ spacing_loop self rest
  end.

Definition _ensure_paragraph_spacing (self : formatter) (text : str) : str :=
  join [NL] (spacing_loop self (split NL text)).

(** The patterns of [_fix_common_issues] *)
Definition percent_re : regex :=       (* (\d+)\s*% *)
  Seqs [Grp 1 (Plus is_digit); Star is_space; Chr (c_of "%")].
Definition unit_re : regex :=          (* (\d+)\s*(MB|GB|KB|ms|s) *)
  Seqs [Grp 1 (Plus is_digit); Star is_space;
        Grp 2 (Alt (L "MB") (Alt (L "GB") (Alt (L "KB") (Alt (L "ms") (L "s")))))].
Definition d2 : regex := Seq (Cls is_digit) (Cls is_digit).
Definition d4 : regex := Seq d2 d2.
Definition timestamp_re : regex :=
  (* (\d{4})-(\d{2})-(\d{2})\s+(\d{2}):(\d{2}):(\d{2}) *)
  Seqs [Grp 1 d4; Chr (c_of "-"); Grp 2 d2; Chr (c_of "-"); Grp 3 d2;
        Plus is_space;
        Grp 4 d2; Chr (c_of ":"); Grp 5 d2; Chr (c_of ":"); Grp 6 d2].
Definition colon_re : regex :=         (* :([^\s]) *)
  Seqs [Chr (c_of ":"); Grp 1 (Cls (fun c => negb (is_space c)))].

Definition _fix_common_issues (text : str) : str :=
  let text := sub percent_re [TGrp 1; T "%"] text in
  let text := sub unit_re [TGrp 1; TGrp 2] text in
  let text := sub timestamp_re
                [TGrp 1; T "-"; TGrp 2; T "-"; TGrp 3; T " ";
                 TGrp 4; T ":"; TGrp 5; T ":"; TGrp 6] text in
  let text := sub colon_re [T ": "; TGrp 1] text in
  text.

(** [while '\n\n\n' in text: text = text.replace('\n\n\n', '\n\n')];
    [None] when the turns allowed are used up. *)
Fixpoint collapse_loop (fuel : nat) (text : str) : option str :=
  if contains nl3 text then
    match fuel with
    | O => None
    | S fuel' => collapse_loop fuel' (replace nl3 nl2 text)
    end
  else Some text.

(** The loop never needs more turns than the text has characters
    ([collapse_loop_terminates] below). *)
Definition collapse_newlines (text : str) : str :=
  default text (collapse_loop (length text) text).

Definition _final_cleanup (self : formatter) (text : str) : str :=
  let text := collapse_newlines text in
  let text := strip text in
  let text := _ensure_paragraph_spacing self text in
  let text := _fix_common_issues text in
  text.

(** The body of [format_result].  The three later stages are methods of
    the class; they are parameters here so that a failure inside one of
    them can be stated. *)
Section Body.
Variable self : formatter.
Variables process_structured_content process_lines final_cleanup
  : str -> M logger str.

(** The [try] block of [format_result] *)
Definition pipeline (text : str) : M logger str :=
  let! cleaned := _basic_cleanup self text in
  let! cleaned := process_structured_content cleaned in
  let! cleaned := process_lines cleaned in
  let! cleaned := final_cleanup cleaned in
  ret (if truthy (strip cleaned) then cleaned else NO_SPECIFIC_RESULT).

Definition format_result_body (text : str) : M logger str :=
  if negb (truthy text) || negb (truthy (strip text)) then ret NO_RESULT
  else
    try_except (pipeline text)
      (fun e =>
         do! log ERROR (u "格式化输出时出错: " ++ exn_text e) in
         ret (FAILURE_NOTICE ++ text)).
End Body.

(** [OutputFormatter.format_result] with the logger made explicit *)
Definition format_result_log (self : formatter) (text : str) : M logger str :=
  format_result_body self
    (fun t => ret (_process_structured_content self t))
    (fun t => ret (_process_lines t))
    (fun t => ret (_final_cleanup self t))
    text.

(** The value [format_result] returns; [None] would be an exception that
    reaches the caller. *)
Definition format_result_opt (self : formatter) (text : str) : option str :=
  match format_result_log self text [] with
  | (Ok r, _) => Some r
  | (Raise _, _) => None
  end.

(** [format_result] as a function: it always returns
    ([format_result_returns] below). *)
Definition format_result (self : formatter) (text : str) : str :=
  default [] (format_result_opt self text).

End OutputFormatter.

(* ===================================================================== *)
(** * mcp_manager.py                                                      *)
(* ===================================================================== *)

Module MCPManager.
Import Py Eff.
Local Open Scope eff_scope.

(** An [MCPClient] object, by identity: [==] and [in] on clients compare
    identities. *)
Definition client := nat.

(** Values held by a server configuration ([Dict]). *)
Inductive value : Type :=
| VStr (s : str)
| VList (l : list str)
| VDict (d : list (str * str)).
Definition config := gmap string value.

(** [f"{v}"] *)
Definition value_str (v : value) : str :=
  match v with
  | VStr s => s
  | VList l => u "[" ++ join (u ", ") l ++ u "]"
  | VDict d => u "{" ++ join (u ", ") (map (fun kv => kv.1 ++ u ": " ++ kv.2) d) ++ u "}"
  end.

(** What lies outside the repository: the MCP servers and the [strands] and
    [mcp] packages.  [new_client] stands for [StdioServerParameters(...)]
    followed by [MCPClient(...)]; [client_exit] returns [None], as
    [MCPClient.__exit__] does, so a [with] block swallows no exception. *)
Class Backend : Type := {
  World : Type;
  Tool : Type;
  new_client : value -> value -> value -> World -> outcome unit * World;
  client_enter : client -> World -> outcome unit * World;
  client_exit : client -> World -> outcome unit * World;
  list_tools_sync : client -> World -> outcome (list Tool) * World
}.

(** Calls made on clients, recorded in the order they are made. *)
Inductive call : Type :=
| CallEnter (c : client)
| CallListTools (c : client)
| CallExit (c : client).

Section Manager.
Context {B : Backend}.

(** The attributes of an [MCPManager] *)
Record manager : Type := Manager {
  clients : list client;
  tools : list Tool;
  _active_clients : list client
}.

(** The manager in its surroundings: the outside world, the logger, the
    number of client objects created so far and the calls made. *)
Record state : Type := State {
  self : manager;
  world : World;
  logs : list log_record;
  next_client : nat;
  calls : list call
}.

(** [MCPManager.__init__] *)
Definition init : manager := Manager [] [] [].

Definition set_self (f : manager -> manager) (st : state) : state :=
  State (f (self st)) (world st) (logs st) (next_client st) (calls st).

Definition log (l : level) (m : str) : M state unit :=
  modify (fun st => State (self st) (world st) (logs st ++ [LogRecord l m])
                          (next_client st) (calls st)).

(** A call into the outside world *)
Definition external {A} (f : World -> outcome A * World) : M state A :=
  fun st =>
    let (r, w) := f (world st) in
    (r, State (self st) w (logs st) (next_client st) (calls st)).

Definition record_call (c : call) : M state unit :=
  modify (fun st => State (self st) (world st) (logs st) (next_client st)
                          (calls st ++ [c])).

Definition enter (c : client) : M state unit :=
  do! record_call (CallEnter c) in external (client_enter c).
Definition exit_ (c : client) : M state unit :=
  do! record_call (CallExit c) in external (client_exit c).
Definition list_tools (c : client) : M state (list Tool) :=
  do! record_call (CallListTools c) in external (list_tools_sync c).

(** A newly constructed object has an identity of its own. *)
Definition fresh_client : M state client :=
  fun st => (Ok (next_client st),
             State (self st) (world st) (logs st) (S (next_client st))
                   (calls st)).

(** [config[key]] *)
Definition getitem (cfg : config) (key : string) : M state value :=
  match cfg !! key with
  | Some v => ret v
  | None => raise (Exn KeyErrorK (u "'" ++ u key ++ u "'"))
  end.
Arguments getitem cfg key%_string.

(** [with c: body] *)
Definition with_ {A} (c : client) (body : M state A) : M state A :=
  do! enter c in
  fun st =>
    match body st with
    | (Ok a, st') => (do! exit_ c in ret a) st'
    | (Raise e, st') =>
        (* [__exit__] returns None: the exception goes on, unless
           [__exit__] raises one of its own *)
        (do! exit_ c in raise e) st'
    end.

(** [MCPManager._create_client] *)
Definition _create_client (cfg : config) : M state (option client) :=
  try_except
    (let! command := getitem cfg "command" in
     let args := default (VList []) (cfg !! "args"%string) in
     let env := default (VDict []) (cfg !! "env"%string) in
     do! external (new_client command args env) in
     let! client := fresh_client in
     ret (Some client))
    (fun e =>
       do! log ERROR (u "创建 MCP 客户端失败: " ++ exn_text e) in
       ret None).

(** The loop of [initialize_clients].  The handler is entered only by the
    [KeyError] of [config['name']], which it raises again. *)
Fixpoint initialize_loop (server_configs : list config) (clients : list client)
  : M state (list client) :=
  match server_configs with
  | [] => ret clients
  | cfg :: server_configs' =>
      let! clients :=
        try_except
          (let! client := _create_client cfg in
           match client with
           | Some c =>
               let clients := clients ++ [c] in
               let! name := getitem cfg "name" in
               do! log INFO (u "成功连接到 MCP 服务器: " ++ value_str name) in
               ret clients
           | None => ret clients
           end)
          (fun e =>
             let! name := getitem cfg "name" in
             do! log ERROR (u "连接 MCP 服务器 " ++ value_str name
                            ++ u " 失败: " ++ exn_text e) in
             ret clients) in                        (* continue *)
      initialize_loop server_configs' clients
  end.

(** [MCPManager.initialize_clients] *)
Definition initialize_clients (server_configs : list config)
  : M state (list client) :=
  let! clients := initialize_loop server_configs [] in
  do! modify (set_self (fun m => Manager clients (tools m) (_active_clients m))) in
  ret clients.

(** One turn of the loop of [get_all_tools] *)
Definition tools_turn (client : client) (all_tools : list Tool)
  : M state (list Tool) :=
  try_except
    (let! st := get in
     do! (if bool_decide (client ∈ _active_clients (self st)) then ret tt
          else
            do! enter client in
            modify (set_self (fun m =>
              Manager (clients m) (tools m) (_active_clients m ++ [client])))) in
     let! tools := list_tools client in
     match tools with
     | [] => ret all_tools
     | _ =>
         do! log INFO (u "从客户端获取到 " ++ u (pretty (length tools))
                       ++ u " 个工具") in
         ret (all_tools ++ tools)
     end)
    (fun e =>
       do! log ERROR (u "获取工具失败: " ++ exn_text e) in
       ret all_tools).                              (* continue *)

Fixpoint tools_loop (cs : list client) (all_tools : list Tool)
  : M state (list Tool) :=
  match cs with
  | [] => ret all_tools
  | client :: cs' =>
      let! all_tools := tools_turn client all_tools in
      tools_loop cs' all_tools
  end.

(** [MCPManager.get_all_tools] *)
Definition get_all_tools : M state (list Tool) :=
  let! st := get in
  let! all_tools := tools_loop (clients (self st)) [] in
  do! modify (set_self (fun m => Manager (clients m) all_tools (_active_clients m))) in
  do! log INFO (u "总共获取到 " ++ u (pretty (length all_tools)) ++ u " 个工具") in
  ret all_tools.

(** [f"client_{i}"] *)
Definition status_key (i : nat) : string := "client_" +:+ pretty i.

(** One turn of the loop of [health_check]: the value [status[key]] ends
    with ([status[key] = True] inside the [with] block is overwritten by
    the handler when [__exit__] raises). *)
Definition health_turn (i : nat) (client : client) : M state bool :=
  try_except
    (do! with_ client (do! list_tools client in ret tt) in
     ret true)
    (fun e =>
       do! log ERROR (u "客户端 " ++ u (pretty i) ++ u " 健康检查失败: "
                      ++ exn_text e) in
       ret false).

Fixpoint health_loop (i : nat) (cs : list client) (status : gmap string bool)
  : M state (gmap string bool) :=
  match cs with
  | [] => ret status
  | client :: cs' =>
      let! ok := health_turn i client in
      health_loop (S i) cs' (<[status_key i := ok]> status)
  end.

(** [MCPManager.health_check] *)
Definition health_check : M state (gmap string bool) :=
  let! st := get in
  health_loop 0 (clients (self st)) ∅.

(** [MCPManager.cleanup] *)
Definition cleanup : M state unit :=
  let! st := get in
  do! for_each (_active_clients (self st))
        (fun client =>
           try_except (exit_ client)
             (fun e => log ERROR (u "关闭客户端连接失败: " ++ exn_text e))) in
  do! modify (set_self (fun _ => Manager [] [] [])) in
  log INFO (u "MCP 管理器资源已清理").

(** The operations a caller can apply to one manager, and a run of them:
    an exception reaches the caller, who goes on with the next one. *)
Inductive op : Type :=
| InitializeClients (server_configs : list config)
| GetAllTools
| HealthCheck
| Cleanup.

Definition run_op (o : op) : M state unit :=
  match o with
  | InitializeClients cfgs => do! initialize_clients cfgs in ret tt
  | GetAllTools => do! get_all_tools in ret tt
  | HealthCheck => do! health_check in ret tt
  | Cleanup => cleanup
  end.

Definition step (st : state) (o : op) : state := (run_op o st).2.

(** The states after each operation of a run *)
Fixpoint states_after (ops : list op) (st : state) : list state :=
  match ops with
  | [] => []
  | o :: ops' => step st o :: states_after ops' (step st o)
  end.

(** A scoped open-and-list cycle on one client: open, list, release what
    was opened; the answer tells whether all of it went well. *)
Definition probe (c : client) (w : World) : bool * World :=
  match client_enter c w with
  | (Raise _, w1) => (false, w1)
  | (Ok _, w1) =>
      let (r, w2) := list_tools_sync c w1 in
      match client_exit c w2 with
      | (Raise _, w3) => (false, w3)
      | (Ok _, w3) => (match r with Ok _ => true | Raise _ => false end, w3)
      end
  end.

Fixpoint probes (cs : list client) (w : World) : list bool * World :=
  match cs with
  | [] => ([], w)
  | c :: cs' =>
      let (b, w1) := probe c w in
      let (bs, w2) := probes cs' w1 in
      (b :: bs, w2)
  end.

End Manager.

Arguments manager {B}.
Arguments state {B}.

End MCPManager.

(* ===================================================================== *)
(** * log_analyzer_agent.py                                               *)
(* ===================================================================== *)

Module LogAnalyzerAgent.
Import Py Eff.
Local Open Scope eff_scope.

(** What the agent returns: an object that may have a [message], a
    [content] or a [text] attribute; [resp_str] is [str(response)]. *)
Record response : Type := Response {
  resp_message : option str;
  resp_content : option str;
  resp_text : option str;
  resp_str : str
}.

(** What lies outside the repository: the [strands] agent, and the case
    tables behind [str.lower]. *)
Class Backend : Type := {
  World : Type;
  agent_call : str -> World -> outcome response * World;
  lower : str -> str
}.

(** [str.lower] on ASCII letters only (used where a table is needed to
    run the definitions). *)
Definition ascii_lower (s : str) : str :=
  map (fun c => if (65 <=? c) && (c <=? 90) then c + 32 else c) s.

Section Agent.
Context {B : Backend}.

(** [self.agent] is [None] until [create_agent] has run. *)
Record state : Type := State {
  agent : bool;
  world : World;
  logs : list log_record
}.

Definition log (l : level) (m : str) : M state unit :=
  modify (fun st => State (agent st) (world st) (logs st ++ [LogRecord l m])).

Definition call_agent (q : str) : M state response :=
  fun st =>
    let (r, w) := agent_call q (world st) in
    (r, State (agent st) w (logs st)).

(** [LogAnalyzerAgent._preprocess_query] *)
Definition _preprocess_query (query : str) : str :=
  let query := strip query in
  if negb (existsb (fun keyword => contains keyword (lower query))
                   [u "分析"; u "统计"; u "查询"; u "显示"])
  then u "请分析：" ++ query
  else query.

(** [LogAnalyzerAgent._extract_response_text] *)
Definition _extract_response_text (r : response) : str :=
  match resp_message r with
  | Some m => m
  | None =>
      match resp_content r with
      | Some c => c
      | None =>
          match resp_text r with
          | Some t => t
          | None => resp_str r
          end
      end
  end.

(** [LogAnalyzerAgent._postprocess_result] *)
Definition _postprocess_result (result : str) : str :=
  if negb (truthy result) || negb (truthy (strip result))
  then u "分析完成，但未生成具体结果。请尝试更具体的查询条件。"
  else
    let result := strip result in
    if bool_decide (length result < 10)%nat
    then u "分析结果过于简短，请尝试更详细的查询。"
    else result.

Definition TIMEOUT_ADVICE : str := u
"查询超时，可能的原因：
• 查询范围过大，请缩小时间范围
• 数据源响应缓慢，请稍后重试
• 网络连接不稳定

建议：尝试查询最近几小时或特定时间段的数据。".

Definition CONNECTION_ADVICE : str := u
"数据源连接失败：
• 请检查网络连接状态
• 确认数据源配置正确
• 验证访问权限设置

如问题持续，请联系系统管理员。".

Definition PERMISSION_ADVICE : str := u
"权限验证失败：
• 请检查访问凭据配置
• 确认账户权限设置
• 验证数据源访问策略

请联系管理员检查权限配置。".

Definition GENERIC_HEAD : str := u
"处理查询时遇到问题：
• 错误详情：".

Definition GENERIC_TAIL : str := u
"
• 建议：请尝试重新表述查询或联系技术支持

您可以尝试：
• 使用更简单的查询条件
• 缩小数据范围
• 检查查询语法".

(** [LogAnalyzerAgent._format_error_response] *)
Definition _format_error_response (error_msg : str) : str :=
  if contains (u "timeout") (lower error_msg) then TIMEOUT_ADVICE
  else if contains (u "connection") (lower error_msg) then CONNECTION_ADVICE
  else if contains (u "permission") (lower error_msg)
          || contains (u "auth") (lower error_msg) then PERMISSION_ADVICE
  else GENERIC_HEAD ++ error_msg ++ GENERIC_TAIL.

(** [LogAnalyzerAgent.analyze_query] *)
Definition analyze_query (query : str) : M state str :=
  let! st := get in
  if negb (agent st)
  then raise (Exn RuntimeErrorK (u "智能体未初始化，请先调用 create_agent()"))
  else
    try_except
      (do! log INFO (u "处理用户查询: " ++ take 100 query ++ u "...") in
       let processed_query := _preprocess_query query in
       let! response := call_agent processed_query in
       let result := _extract_response_text response in
       let result := _postprocess_result result in
       do! log INFO (u "查询处理完成") in
       ret result)
      (fun e =>
         do! log ERROR (u "查询处理失败: " ++ exn_text e) in
         ret (_format_error_response (exn_text e))).

End Agent.
Arguments state {B}.

End LogAnalyzerAgent.

(* ===================================================================== *)
(** * time_tools.py                                                       *)
(* ===================================================================== *)

Module TimeTools.
Import Py Re.
Local Open Scope Z_scope.

(** A [datetime] in UTC *)
Record datetime : Type := DateTime {
  year : Z; month : Z; day : Z;
  hour : Z; minute : Z; second : Z; microsecond : Z
}.

Definition is_leap (y : Z) : bool :=
  (y mod 4 =? 0) && (negb (y mod 100 =? 0) || (y mod 400 =? 0)).

Definition days_in_month (y m : Z) : Z :=
  if m =? 2 then (if is_leap y then 29 else 28)
  else if (m =? 4) || (m =? 6) || (m =? 9) || (m =? 11) then 30
  else 31.

Definition days_before_year (y : Z) : Z :=
  let y := y - 1 in y * 365 + y / 4 - y / 100 + y / 400.

Fixpoint days_before_month_go (y : Z) (m : nat) : Z :=
  match m with
  | O => 0
  | S m' => days_before_month_go y m' + days_in_month y (Z.of_nat m)
  end.
Definition days_before_month (y m : Z) : Z :=
  days_before_month_go y (Z.to_nat (m - 1)).

(** [date.toordinal()] *)
Definition toordinal (d : datetime) : Z :=
  days_before_year (year d) + days_before_month (year d) (month d) + day d.

(** Microseconds since the start of day 0: the order and the differences
    of datetimes are those of these numbers. *)
Definition to_us (d : datetime) : Z :=
  (((toordinal d * 24 + hour d) * 60 + minute d) * 60 + second d) * 1000000
  + microsecond d.

Definition US_PER_DAY : Z := 86400 * 1000000.

(** [a > b] and [(a - b).days] *)
Definition dt_gt (a b : datetime) : bool := to_us a >? to_us b.
Definition delta_days (a b : datetime) : Z := (to_us a - to_us b) / US_PER_DAY.

(** [int(s)] on the text of a group: decimal digits after optional blanks *)
Definition py_int (s : str) : Z :=
  fold_left (fun acc c => if is_space c then acc
                          else acc * 10 + Z.of_N (digit_value c)) s 0.

(** The pattern [_strptime] builds from ["%Y-%m-%d %H:%M:%S"] (the blank
    of the format becomes [\s+]; [re.IGNORECASE] changes nothing, the
    pattern having no letter).  Groups 1 to 6 are Y, m, d, H, M, S. *)
Definition D : regex := Cls is_digit.
Definition rng (lo hi : string) : regex :=
  Cls (fun c => (c_of lo <=? c)%N && (c <=? c_of hi)%N).
Arguments rng (lo hi)%_string.
Definition C (s : string) : regex := Chr (c_of s).
Arguments C s%_string.

Definition strptime_re : regex :=
  Seqs [
    (* (?P<Y>\d\d\d\d) *)
    Grp 1 (Seqs [D; D; D; D]); C "-";
    (* (?P<m>1[0-2]|0[1-9]|[1-9]) *)
    Grp 2 (Alt (Seq (C "1") (rng "0" "2"))
          (Alt (Seq (C "0") (rng "1" "9")) (rng "1" "9"))); C "-";
    (* (?P<d>3[0-1]|[1-2]\d|0[1-9]|[1-9]| [1-9]) *)
    Grp 3 (Alt (Seq (C "3") (rng "0" "1"))
          (Alt (Seq (rng "1" "2") D)
          (Alt (Seq (C "0") (rng "1" "9"))
          (Alt (rng "1" "9") (Seq (C " ") (rng "1" "9"))))));
    Plus is_space;
    (* (?P<H>2[0-3]|[0-1]\d|\d) *)
    Grp 4 (Alt (Seq (C "2") (rng "0" "3")) (Alt (Seq (rng "0" "1") D) D));
    C ":";
    (* (?P<M>[0-5]\d|\d) *)
    Grp 5 (Alt (Seq (rng "0" "5") D) D); C ":";
    (* (?P<S>6[0-1]|[0-5]\d|\d) *)
    Grp 6 (Alt (Seq (C "6") (rng "0" "1")) (Alt (Seq (rng "0" "5") D) D))
  ].

(** What the [datetime] constructor accepts *)
Definition valid_datetime (d : datetime) : bool :=
  (1 <=? year d) && (year d <=? 9999)
  && (1 <=? month d) && (month d <=? 12)
  && (1 <=? day d) && (day d <=? days_in_month (year d) (month d))
  && (0 <=? hour d) && (hour d <=? 23)
  && (0 <=? minute d) && (minute d <=? 59)
  && (0 <=? second d) && (second d <=? 59).

(** [datetime.strptime(ts, "%Y-%m-%d %H:%M:%S")]; [None] is [ValueError]:
    no match at the start, text left over, or values no datetime has. *)
Definition strptime (ts : str) : option datetime :=
  match match_at strptime_re None false ts with
  | None => None
  | Some st =>
      match rest st with
      | _ :: _ => None
      | [] =>
          let g n := py_int (lookup_group n (groups st)) in
          let d := DateTime (g 1%nat) (g 2%nat) (g 3%nat)
                            (g 4%nat) (g 5%nat) (g 6%nat) 0 in
          if valid_datetime d then Some d else None
      end
  end.

(** The values of the result dictionary *)
Record future_entry : Type := FutureEntry {
  timestamp : str;
  days_in_future : Z
}.

(** [earliest] and [latest] are kept as datetimes; their text is
    [strftime]'s. *)
Record time_range_t : Type := TimeRange {
  earliest : datetime;
  latest : datetime;
  span_days : Z
}.

Record anomaly : Type := Anomaly {
  a_type : string;
  a_count : option nat;
  a_span_days : option Z;
  a_description : str
}.

Record results : Type := Results {
  current_time : datetime;
  total_timestamps : nat;
  future_timestamps : list future_entry;
  past_timestamps : list str;
  invalid_timestamps : list str;
  time_range : option time_range_t;      (* [None] is the empty dict *)
  anomalies : list anomaly
}.

(** One turn of the loop over the timestamps *)
Definition classify (now : datetime) (acc : results * list datetime) (ts : str)
  : results * list datetime :=
  let (r, valid_datetimes) := acc in
  match strptime ts with
  | Some dt =>
      let valid_datetimes := valid_datetimes ++ [dt] in
      if dt_gt dt now then
        (Results (current_time r) (total_timestamps r)
           (future_timestamps r ++ [FutureEntry ts (delta_days dt now)])
           (past_timestamps r) (invalid_timestamps r)
           (time_range r) (anomalies r),
         valid_datetimes)
      else
        (Results (current_time r) (total_timestamps r)
           (future_timestamps r) (past_timestamps r ++ [ts])
           (invalid_timestamps r) (time_range r) (anomalies r),
         valid_datetimes)
  | None =>
      (Results (current_time r) (total_timestamps r)
         (future_timestamps r) (past_timestamps r)
         (invalid_timestamps r ++ [ts]) (time_range r) (anomalies r),
       valid_datetimes)
  end.

(** [min(ds)] and [max(ds)] for a non-empty list: the first of the least,
    the first of the greatest *)
Definition dt_min (d0 : datetime) (ds : list datetime) : datetime :=
  fold_left (fun m d => if to_us d <? to_us m then d else m) ds d0.
Definition dt_max (d0 : datetime) (ds : list datetime) : datetime :=
  fold_left (fun m d => if to_us d >? to_us m then d else m) ds d0.

(** [validate_log_timestamps], with [datetime.now(timezone.utc)] as an
    argument.  Nothing in the outer [try] raises on a [str], so its
    [except] branch is not reached. *)
Definition validate_log_timestamps (now : datetime) (log_timestamps : str)
  : results :=
  let timestamps := map strip (split (c_of ",") log_timestamps) in
  let results0 := Results now (length timestamps) [] [] [] None [] in
  let (r, valid_datetimes) :=
    fold_left (classify now) timestamps (results0, []) in
  let time_range :=
    match valid_datetimes with
    | [] => None
    | d0 :: ds =>
        let min_time := dt_min d0 ds in
        let max_time := dt_max d0 ds in
        Some (TimeRange min_time max_time (delta_days max_time min_time))
    end in
  let anomalies := [] in
  let anomalies :=
    match future_timestamps r with
    | [] => anomalies
    | _ => anomalies ++ [Anomaly "future_timestamps"
                           (Some (length (future_timestamps r))) None
                           (u "发现未来时间戳，可能是系统时间配置错误或测试数据")]
    end in
  let anomalies :=
    match invalid_timestamps r with
    | [] => anomalies
    | _ => anomalies ++ [Anomaly "invalid_format"
                           (Some (length (invalid_timestamps r))) None
                           (u "时间戳格式无效，无法解析")]
    end in
  let anomalies :=
    match time_range with
    | Some tr =>
        if span_days tr >? 365
        then anomalies ++ [Anomaly "large_time_span" None (Some (span_days tr))
                             (u "时间跨度超过一年，请确认数据范围是否正确")]
        else anomalies
    | None => anomalies
    end in
  Results now (length timestamps) (future_timestamps r) (past_timestamps r)
          (invalid_timestamps r) time_range anomalies.

(** ** Date arithmetic, as [datetime] does it *)

Definition MINYEAR : Z := 1.
Definition MAXYEAR : Z := 9999.
Definition MAXORDINAL : Z := 3652059.     (* date(9999,12,31).toordinal() *)
Definition DI4Y : Z := 1461.              (* days in 4 years *)
Definition DI100Y : Z := 36524.           (* days in 100 years *)
Definition DI400Y : Z := 146097.          (* days in 400 years *)
Definition MAX_DELTA_DAYS : Z := 999999999.

(** [ymd_to_ord]: the ordinal of a date, 0001-01-01 being day 1 *)
Definition ymd_to_ord (y m d : Z) : Z :=
  days_before_year y + days_before_month y m + d.

(** The table [_days_before_month] of a year that is not a leap year *)
Definition _days_before_month (m : Z) : Z :=
  nth (Z.to_nat m) [0; 0; 31; 59; 90; 120; 151; 181; 212; 243; 273; 304; 334] 0.

(** [ord_to_ymd]: the date of an ordinal *)
Definition ord_to_ymd (ordinal : Z) : Z * Z * Z :=
  let ordinal := ordinal - 1 in
  let n400 := ordinal / DI400Y in
  let n := ordinal mod DI400Y in
  let year := n400 * 400 + 1 in
  let n100 := n / DI100Y in
  let n := n mod DI100Y in
  let n4 := n / DI4Y in
  let n := n mod DI4Y in
  let n1 := n / 365 in
  let n := n mod 365 in
  let year := year + (n100 * 100 + n4 * 4 + n1) in
  if (n1 =? 4) || (n100 =? 4) then (year - 1, 12, 31)
  else
    let leapyear := (n1 =? 3) && (negb (n4 =? 24) || (n100 =? 3)) in
    let month := Z.shiftr (n + 50) 5 in
    let preceding :=
      _days_before_month month + (if (month >? 2) && leapyear then 1 else 0) in
    if preceding >? n
    then (* the estimate is too large *)
      let month := month - 1 in
      let preceding := preceding - days_in_month year month in
      (year, month, n - preceding + 1)
    else (year, month, n - preceding + 1).

(** [normalize_y_m_d]: a date whose day may be out of bounds is brought
    back into range; [None] is [OverflowError]. *)
Definition normalize_y_m_d (y m d : Z) : option (Z * Z * Z) :=
  let dim := days_in_month y m in
  let in_years (r : Z * Z * Z) : option (Z * Z * Z) :=
    let '(y, _, _) := r in
    if (MINYEAR <=? y) && (y <=? MAXYEAR) then Some r else None in
  if (d <? 1) || (d >? dim) then
    if d =? 0 then
      let m := m - 1 in
      if m >? 0 then in_years (y, m, days_in_month y m)
      else in_years (y - 1, 12, 31)
    else if d =? dim + 1 then
      let m := m + 1 in
      if m >? 12 then in_years (y + 1, 1, 1) else in_years (y, m, 1)
    else
      let ordinal := ymd_to_ord y m 1 + d - 1 in
      if (ordinal <? 1) || (ordinal >? MAXORDINAL) then None
      else Some (ord_to_ymd ordinal)
  else in_years (y, m, d).

(** [timedelta(days=n)]: [None] is [OverflowError] *)
Definition timedelta_days (n : Z) : option Z :=
  if (- MAX_DELTA_DAYS <=? n) && (n <=? MAX_DELTA_DAYS) then Some n else None.

(** [dt - timedelta(days=n)]: the time of day is kept. *)
Definition minus_days (dt : datetime) (n : Z) : option datetime :=
  match timedelta_days n with
  | None => None
  | Some days =>
      match normalize_y_m_d (year dt) (month dt) (day dt - days) with
      | Some (y, m, d) =>
          Some (DateTime y m d (hour dt) (minute dt) (second dt) (microsecond dt))
      | None => None
      end
  end.

(** One entry of the suggestions; the texts of [start] and [end] are
    [strftime]'s. *)
Record window : Type := Window {
  w_start : datetime;
  w_end : datetime;
  w_description : str
}.

Record suggestions : Type := Suggestions {
  s_current_time : datetime;
  today : window;
  last_7_days : window;
  last_30_days : window;
  custom_range : window
}.

(** [get_time_filter_suggestion], with [datetime.now(timezone.utc)] as an
    argument; [None] is the answer of the handler, [{"error": str(e)}],
    given after the exception is logged. *)
Definition get_time_filter_suggestion (now : datetime) (time_range_days : Z)
  : option suggestions :=
  let current_time := now in
  let start_time :=
    DateTime (year current_time) (month current_time) (day current_time)
             0 0 0 0 in
  match minus_days start_time 7 with
  | None => None
  | Some start7 =>
      match minus_days start_time 30 with
      | None => None
      | Some start30 =>
          match minus_days start_time time_range_days with
          | None => None
          | Some start_custom =>
              Some {|
                s_current_time := current_time;
                today := Window start_time current_time (u "今日数据");
                last_7_days := Window start7 current_time (u "最近7天");
                last_30_days := Window start30 current_time (u "最近30天");
                custom_range :=
                  Window start_custom current_time
                         (u "最近" ++ u (pretty time_range_days) ++ u "天")
              |}
          end
      end
  end.

End TimeTools.

(* ===================================================================== *)
(** * Properties of time_tools.py                                         *)
(* ===================================================================== *)

Module TimeToolsProps.
Import Py Re TimeTools.
Local Open Scope Z_scope.

(** The entries of the input: [ts.strip() for ts in s.split(',')] *)
Definition entries (s : str) : list str := map strip (split (c_of ",") s).

(** Where one entry goes *)
Definition future_of (now : datetime) (ts : str) : option future_entry :=
  match strptime ts with
  | Some dt => if dt_gt dt now then Some (FutureEntry ts (delta_days dt now))
               else None
  | None => None
  end.
Definition past_of (now : datetime) (ts : str) : option str :=
  match strptime ts with
  | Some dt => if dt_gt dt now then None else Some ts
  | None => None
  end.
Definition invalid_of (ts : str) : option str :=
  match strptime ts with
  | Some _ => None
  | None => Some ts
  end.

Lemma classify_fold (now : datetime) (tss : list str) :
  forall (r : results) (v : list datetime),
    fold_left (classify now) tss (r, v) =
    (Results (current_time r) (total_timestamps r)
       (future_timestamps r ++ omap (future_of now) tss)
       (past_timestamps r ++ omap (past_of now) tss)
       (invalid_timestamps r ++ omap invalid_of tss)
       (time_range r) (anomalies r),
     v ++ omap strptime tss).
Proof.
  induction tss as [|ts tss IH]; intros r v.
  - simpl. rewrite !app_nil_r. destruct r; reflexivity.
  - cbn [fold_left]. unfold classify at 2.
    unfold future_of, past_of, invalid_of. cbn [omap list_omap].
    fold (future_of now) (past_of now) invalid_of.
    destruct (strptime ts) as [dt|] eqn:Hp.
    + destruct (dt_gt dt now) eqn:Hg; rewrite IH; cbn;
        rewrite <- ?app_assoc; reflexivity.
    + rewrite IH; cbn; rewrite <- ?app_assoc; reflexivity.
Qed.

Lemma validate_lists (now : datetime) (s : str) :
  let r := validate_log_timestamps now s in
  total_timestamps r = length (entries s)
  /\ future_timestamps r = omap (future_of now) (entries s)
  /\ past_timestamps r = omap (past_of now) (entries s)
  /\ invalid_timestamps r = omap invalid_of (entries s).
Proof.
  unfold validate_log_timestamps. fold (entries s).
  rewrite classify_fold. cbn. auto.
Qed.

Lemma one_list_each (now : datetime) (ts : str) :
  (is_Some (future_of now ts) /\ past_of now ts = None /\ invalid_of ts = None)
  \/ (future_of now ts = None /\ is_Some (past_of now ts) /\ invalid_of ts = None)
  \/ (future_of now ts = None /\ past_of now ts = None /\ is_Some (invalid_of ts)).
Proof.
  unfold future_of, past_of, invalid_of.
  destruct (strptime ts) as [dt|]; [destruct (dt_gt dt now)|]; eauto 10.
Qed.

Lemma three_lengths (now : datetime) (tss : list str) :
  length tss =
  (length (omap (future_of now) tss) + length (omap (past_of now) tss)
   + length (omap invalid_of tss))%nat.
Proof.
  induction tss as [|ts tss IH]; [reflexivity|].
  cbn [omap list_omap length].
  destruct (one_list_each now ts) as [(Hf & -> & ->)|[(-> & Hp & ->)|(-> & -> & Hi)]].
  - destruct Hf as [x ->]. cbn. lia.
  - destruct Hp as [x ->]. cbn. lia.
  - destruct Hi as [x ->]. cbn. lia.
Qed.

(** C10: the reported total is the number of comma-separated entries;
    every entry goes to exactly one of the future, past and invalid lists,
    so the total is the sum of the three lengths. *)
Theorem validate_total_is_sum (now : datetime) (s : str) :
  let r := validate_log_timestamps now s in
  total_timestamps r = length (split (c_of ",") s)
  /\ future_timestamps r = omap (future_of now) (entries s)
  /\ past_timestamps r = omap (past_of now) (entries s)
  /\ invalid_timestamps r = omap invalid_of (entries s)
  /\ (forall ts,
        (is_Some (future_of now ts) /\ past_of now ts = None
         /\ invalid_of ts = None)
        \/ (future_of now ts = None /\ is_Some (past_of now ts)
            /\ invalid_of ts = None)
        \/ (future_of now ts = None /\ past_of now ts = None
            /\ is_Some (invalid_of ts)))
  /\ total_timestamps r =
     (length (future_timestamps r) + length (past_timestamps r)
      + length (invalid_timestamps r))%nat.
Proof.
  destruct (validate_lists now s) as (Ht & Hf & Hp & Hi).
  cbn zeta. rewrite Ht, Hf, Hp, Hi.
  repeat split; auto using one_list_each, three_lengths.
  unfold entries. now rewrite length_map.
Qed.

Lemma dt_min_spec (ds : list datetime) :
  forall d0,
    dt_min d0 ds ∈ d0 :: ds
    /\ forall d, d ∈ d0 :: ds -> to_us (dt_min d0 ds) <= to_us d.
Proof.
  unfold dt_min. induction ds as [|d ds IH]; intros d0; cbn [fold_left].
  - split; [left|]. intros d Hd. apply list_elem_of_singleton in Hd. subst. lia.
  - destruct (Z.ltb_spec (to_us d) (to_us d0)) as [Hlt|Hge];
      destruct (IH (if to_us d <? to_us d0 then d else d0)) as [Hin Hle];
      [ rewrite (proj2 (Z.ltb_lt _ _) Hlt) in * | rewrite (proj2 (Z.ltb_ge _ _) Hge) in * ].
    + split.
      * right. exact Hin.
      * intros x Hx. apply elem_of_cons in Hx as [->|Hx].
        -- specialize (Hle d ltac:(left)). lia.
        -- apply Hle. exact Hx.
    + split.
      * apply elem_of_cons in Hin as [->|Hin]; [left|right; right; exact Hin].
      * intros x Hx. apply elem_of_cons in Hx as [->|Hx].
        -- apply Hle. left.
        -- apply elem_of_cons in Hx as [->|Hx].
           ++ specialize (Hle d0 ltac:(left)). lia.
           ++ apply Hle. right. exact Hx.
Qed.

Lemma dt_max_spec (ds : list datetime) :
  forall d0,
    dt_max d0 ds ∈ d0 :: ds
    /\ forall d, d ∈ d0 :: ds -> to_us d <= to_us (dt_max d0 ds).
Proof.
  unfold dt_max. induction ds as [|d ds IH]; intros d0; cbn [fold_left].
  - split; [left|]. intros d Hd. apply list_elem_of_singleton in Hd. subst. lia.
  - destruct (Z.ltb_spec (to_us d0) (to_us d)) as [Hlt|Hge];
      destruct (IH (if to_us d >? to_us d0 then d else d0)) as [Hin Hle];
      rewrite Z.gtb_ltb in *;
      [ rewrite (proj2 (Z.ltb_lt _ _) Hlt) in * | rewrite (proj2 (Z.ltb_ge _ _) Hge) in * ].
    + split.
      * right. exact Hin.
      * intros x Hx. apply elem_of_cons in Hx as [->|Hx].
        -- specialize (Hle d ltac:(left)). lia.
        -- apply Hle. exact Hx.
    + split.
      * apply elem_of_cons in Hin as [->|Hin]; [left|right; right; exact Hin].
      * intros x Hx. apply elem_of_cons in Hx as [->|Hx].
        -- apply Hle. left.
        -- apply elem_of_cons in Hx as [->|Hx].
           ++ specialize (Hle d0 ltac:(left)). lia.
           ++ apply Hle. right. exact Hx.
Qed.

(** An anomaly of a given type is reported. *)
Definition reports (ty : string) (r : results) : Prop :=
  exists a, a ∈ anomalies r /\ a_type a = ty.

Ltac find_anomaly :=
  cbn [app];
  solve [ eexists; split; [apply list_elem_of_here | repeat split; reflexivity]
        | eexists; split; [apply list_elem_of_further, list_elem_of_here
                          | repeat split; reflexivity]
        | eexists; split; [apply list_elem_of_further, list_elem_of_further,
                             list_elem_of_here
                          | repeat split; reflexivity] ].

Lemma validate_range_and_anomalies (now : datetime) (s : str) :
  let r := validate_log_timestamps now s in
  time_range r =
    match omap strptime (entries s) with
    | [] => None
    | d0 :: ds => Some (TimeRange (dt_min d0 ds) (dt_max d0 ds)
                          (delta_days (dt_max d0 ds) (dt_min d0 ds)))
    end
  /\ (future_timestamps r <> [] -> reports "future_timestamps" r)
  /\ (invalid_timestamps r <> [] -> reports "invalid_format" r)
  /\ (forall d0 ds,
        omap strptime (entries s) = d0 :: ds ->
        delta_days (dt_max d0 ds) (dt_min d0 ds) > 365 ->
        exists a, a ∈ anomalies r /\ a_type a = "large_time_span"%string
                  /\ a_span_days a
                     = Some (delta_days (dt_max d0 ds) (dt_min d0 ds))).
Proof.
  unfold validate_log_timestamps, reports. fold (entries s).
  rewrite classify_fold. cbn [future_timestamps invalid_timestamps time_range
                              anomalies app].
  set (fs := omap (future_of now) (entries s)).
  set (ivs := omap invalid_of (entries s)).
  split; [reflexivity|]. split; [|split].
  - destruct fs as [|f fs']; [congruence|]. intros _.
    destruct ivs; destruct (omap strptime (entries s)) as [|d0 ds];
      cbn [span_days];
      try destruct (delta_days (dt_max d0 ds) (dt_min d0 ds) >? 365);
      find_anomaly.
  - destruct ivs as [|i ivs']; [congruence|]. intros _.
    destruct fs; destruct (omap strptime (entries s)) as [|d0 ds];
      cbn [span_days];
      try destruct (delta_days (dt_max d0 ds) (dt_min d0 ds) >? 365);
      find_anomaly.
  - intros d0 ds -> Hspan. cbn [span_days].
    apply Z.gt_lt, Z.gtb_lt in Hspan. rewrite Hspan.
    destruct fs; destruct ivs; find_anomaly.
Qed.








(** ** No false alarm, whole days, and what counts as an entry *)

Ltac anomaly_cases H :=
  repeat (apply elem_of_cons in H as [H|H];
          [subst; cbn [a_type a_count a_span_days]|]);
  try (apply elem_of_nil in H; destruct H).

(** X3: [validate_log_timestamps] raises no false alarm: every anomaly it
    lists is one of the three kinds, with the count or the span it speaks
    of and with its cause present in the result; there are at most three;
    none is listed exactly when there is no future timestamp, no invalid
    one and no span above 365 days. *)
Theorem validate_anomalies_are_justified (now : datetime) (s : str) :
  let r := validate_log_timestamps now s in
  (forall a, a ∈ anomalies r ->
     (a_type a = "future_timestamps"%string
      /\ a_count a = Some (length (future_timestamps r))
      /\ future_timestamps r <> [])
     \/ (a_type a = "invalid_format"%string
         /\ a_count a = Some (length (invalid_timestamps r))
         /\ invalid_timestamps r <> [])
     \/ (a_type a = "large_time_span"%string
         /\ exists tr, time_range r = Some tr /\ span_days tr > 365
                       /\ a_span_days a = Some (span_days tr)))
  /\ (length (anomalies r) <= 3)%nat
  /\ (anomalies r = [] <->
      future_timestamps r = [] /\ invalid_timestamps r = []
      /\ forall tr, time_range r = Some tr -> span_days tr <= 365).
Proof.
  unfold validate_log_timestamps. fold (entries s).
  rewrite classify_fold. cbn [future_timestamps invalid_timestamps time_range
                              anomalies app].
  set (fs := omap (future_of now) (entries s)).
  set (ivs := omap invalid_of (entries s)).
  destruct (omap strptime (entries s)) as [|d0 ds].
  - destruct fs as [|f fs'], ivs as [|i ivs']; cbn [app length].
    all: split; [intros a Ha; anomaly_cases Ha; auto 10|].
    all: split; [lia|].
    all: split; [intros H; try discriminate H|intros (H1 & H2 & _);
                                              try discriminate].
    all: repeat split; try reflexivity; try discriminate.
  - cbn [span_days].
    set (span := delta_days (dt_max d0 ds) (dt_min d0 ds)).
    destruct (span >? 365) eqn:Hspan.
    + apply Z.gtb_lt in Hspan.
      destruct fs as [|f fs'], ivs as [|i ivs']; cbn [app length].
      all: split;
        [intros a Ha; anomaly_cases Ha; auto 10;
         right; right; (split; [reflexivity|]);
         eexists; (split; [reflexivity|]); cbn [span_days];
         (split; [lia|reflexivity])|].
      all: split; [lia|].
      all: split; [intros H; discriminate H|intros (H1 & H2 & H3)].
      all: try discriminate.
      specialize (H3 _ eq_refl). cbn [span_days] in H3. lia.
    + assert (Hle : span <= 365).
      { destruct (Z.gtb_spec span 365); [discriminate|lia]. }
      destruct fs as [|f fs'], ivs as [|i ivs']; cbn [app length].
      all: split; [intros a Ha; anomaly_cases Ha; auto 10|].
      all: split; [lia|].
      all: split; [intros H; try discriminate H|intros (H1 & H2 & _);
                                                try discriminate].
      all: repeat split; try reflexivity; try discriminate.
      intros tr [= <-]. exact Hle.
Qed.

Lemma US_PER_DAY_pos : 0 < US_PER_DAY.
Proof. reflexivity. Qed.

Lemma delta_days_bounds (a b : datetime) :
  delta_days a b * US_PER_DAY <= to_us a - to_us b
  < (delta_days a b + 1) * US_PER_DAY.
Proof.
  unfold delta_days. pose proof US_PER_DAY_pos as Hp.
  generalize dependent US_PER_DAY. intros d Hd.
  generalize (to_us a - to_us b). intros x.
  pose proof (Z.mul_div_le x d Hd). pose proof (Z.mul_succ_div_gt x d Hd). lia.
Qed.

(** X4: the day counts of [validate_log_timestamps] are whole days, counted
    downwards: a future timestamp is listed with the number of full days
    between the clock and it, which is 0 up to one day ahead and never
    negative; the span of the time range is the number of full days
    between the earliest and the latest valid timestamp, never negative,
    and both of these are timestamps of the input. *)
Theorem validate_counts_whole_days (now : datetime) (s : str) :
  let r := validate_log_timestamps now s in
  (forall e, e ∈ future_timestamps r ->
     exists dt,
       timestamp e ∈ entries s
       /\ strptime (timestamp e) = Some dt
       /\ days_in_future e * US_PER_DAY <= to_us dt - to_us now
          < (days_in_future e + 1) * US_PER_DAY
       /\ 0 < to_us dt - to_us now
       /\ 0 <= days_in_future e)
  /\ (forall tr, time_range r = Some tr ->
        earliest tr ∈ omap strptime (entries s)
        /\ latest tr ∈ omap strptime (entries s)
        /\ to_us (earliest tr) <= to_us (latest tr)
        /\ span_days tr * US_PER_DAY <= to_us (latest tr) - to_us (earliest tr)
           < (span_days tr + 1) * US_PER_DAY
        /\ 0 <= span_days tr).
Proof.
  cbv zeta. pose proof US_PER_DAY_pos as Hp. split.
  - destruct (validate_lists now s) as (_ & -> & _).
    intros e He. apply list_elem_of_omap in He as (ts & Hts & Hf).
    unfold future_of in Hf. destruct (strptime ts) as [dt|] eqn:Hdt; [|discriminate].
    destruct (dt_gt dt now) eqn:Hgt; [|discriminate].
    injection Hf as <-. cbn [timestamp days_in_future].
    exists dt. split; [exact Hts|]. split; [exact Hdt|].
    pose proof (delta_days_bounds dt now) as Hb.
    unfold dt_gt in Hgt. apply Z.gtb_lt in Hgt.
    split; [exact Hb|]. split; [lia|].
    generalize dependent (delta_days dt now). intros k Hk.
    generalize dependent (to_us dt). intros x Hx.
    generalize dependent US_PER_DAY. intros d Hd. nia.
  - destruct (validate_range_and_anomalies now s) as (-> & _).
    destruct (omap strptime (entries s)) as [|d0 ds] eqn:Hv; [discriminate|].
    intros tr [= <-]. cbn [earliest latest span_days].
    destruct (dt_min_spec ds d0) as [Hmin Hlo].
    destruct (dt_max_spec ds d0) as [Hmax Hhi].
    split; [exact Hmin|]. split; [exact Hmax|].
    pose proof (Hlo _ Hmax) as Hle.
    pose proof (delta_days_bounds (dt_max d0 ds) (dt_min d0 ds)) as Hb.
    split; [exact Hle|]. split; [exact Hb|].
    generalize dependent (delta_days (dt_max d0 ds) (dt_min d0 ds)). intros k Hk.
    generalize dependent (to_us (dt_max d0 ds)). intros x.
    generalize dependent (to_us (dt_min d0 ds)). intros y.
    generalize dependent US_PER_DAY. intros d Hd. nia.
Qed.

Lemma split_length (sep : char) (s : str) :
  length (split sep s) = S (count_char sep s).
Proof.
  unfold count_char. induction s as [|c s IH]; [reflexivity|].
  cbn [split]. rewrite (filter_cons (fun c0 : char => c0 = sep) c s).
  destruct (N.eqb_spec c sep) as [->|Hne].
  - rewrite decide_True by reflexivity. cbn [length]. rewrite IH. reflexivity.
  - rewrite decide_False by exact Hne.
    destruct (split sep s) as [|w ws]; [discriminate IH|exact IH].
Qed.

Lemma strptime_empty : strptime [] = None.
Proof. reflexivity. Qed.

(** X5: the total [validate_log_timestamps] reports is one more than the
    number of commas of the input, so it is never zero; an empty entry
    (from the empty input, from a comma at either end or from two commas
    in a row, blanks apart) is counted and is listed as invalid; on the
    empty input the result is one invalid timestamp, no time range and the
    one anomaly of the invalid format. *)
Theorem validate_counts_commas (now : datetime) (s : str) :
  let r := validate_log_timestamps now s in
  total_timestamps r = S (count_char (c_of ",") s)
  /\ ([] ∈ entries s -> [] ∈ invalid_timestamps r)
  /\ let r0 := validate_log_timestamps now [] in
     total_timestamps r0 = 1%nat
     /\ invalid_timestamps r0 = [[]]
     /\ future_timestamps r0 = [] /\ past_timestamps r0 = []
     /\ time_range r0 = None
     /\ exists a, anomalies r0 = [a] /\ a_type a = "invalid_format"%string
                  /\ a_count a = Some 1%nat.
Proof.
  cbv zeta. split; [|split].
  - unfold validate_log_timestamps.
    destruct (fold_left _ _ _) as [r v]. cbn [total_timestamps].
    rewrite length_map. apply split_length.
  - destruct (validate_lists now s) as (_ & _ & _ & ->).
    intros H. apply list_elem_of_omap. exists []. split; [exact H|].
    unfold invalid_of. rewrite strptime_empty. reflexivity.
  - unfold validate_log_timestamps.
    change (map strip (split (c_of ",") [])) with [([] : str)].
    cbn [fold_left classify]. rewrite strptime_empty.
    cbn [total_timestamps invalid_timestamps future_timestamps past_timestamps
         time_range anomalies app length].
    repeat split; try reflexivity.
    eexists. split; [reflexivity|]. split; reflexivity.
Qed.


(** ** Dates and ordinals *)

Fixpoint all_below (k : nat) (P : Z -> bool) : bool :=
  match k with
  | O => true
  | S k' => if P (Z.of_nat k') then all_below k' P else false
  end.

Lemma all_below_spec (P : Z -> bool) (k : nat) :
  all_below k P = true -> forall i, 0 <= i < Z.of_nat k -> P i = true.
Proof.
  induction k as [|k IH]; intros H i Hi; [lia|].
  cbn [all_below] in H. destruct (P (Z.of_nat k)) eqn:Hk; [|discriminate].
  destruct (Z.eq_dec i (Z.of_nat k)) as [->|Hne]; [exact Hk|].
  apply IH; [exact H|lia].
Qed.

(** The lengths of the months, by the kind of the year *)
Definition dim_of (leap : bool) (m : Z) : Z :=
  if m =? 2 then (if leap then 29 else 28)
  else if (m =? 4) || (m =? 6) || (m =? 9) || (m =? 11) then 30
  else 31.

Definition leap_day (leap : bool) (m : Z) : Z :=
  if (m >? 2) && leap then 1 else 0.

Lemma days_in_month_leap (y m : Z) : days_in_month y m = dim_of (is_leap y) m.
Proof. reflexivity. Qed.

Lemma days_before_month_go_leap (y : Z) (k : nat) :
  (k <= 11)%nat ->
  days_before_month_go y k
  = _days_before_month (Z.of_nat k + 1) + leap_day (is_leap y) (Z.of_nat k + 1).
Proof.
  intros Hk.
  assert (Hgo : forall b j,
             (j <= 11)%nat ->
             (fix go (m : nat) : Z :=
                match m with
                | O => 0
                | S m' => go m' + dim_of b (Z.of_nat m)
                end) j
             = _days_before_month (Z.of_nat j + 1) + leap_day b (Z.of_nat j + 1)).
  { intros b j Hj. do 12 (destruct j as [|j]; [destruct b; vm_compute; reflexivity|]).
    lia. }
  rewrite <- (Hgo (is_leap y) k Hk). clear.
  induction k as [|k IH]; [reflexivity|].
  cbn [days_before_month_go]. rewrite IH, days_in_month_leap. reflexivity.
Qed.

Lemma days_before_month_leap (y m : Z) :
  1 <= m <= 12 ->
  days_before_month y m = _days_before_month m + leap_day (is_leap y) m.
Proof.
  intros Hm. unfold days_before_month.
  rewrite days_before_month_go_leap by lia.
  replace (Z.of_nat (Z.to_nat (m - 1)) + 1) with m by lia. reflexivity.
Qed.

(** The end of [ord_to_ymd]: from the day of the year to the month and
    the day of the month. *)
Definition month_day_ok (leap : bool) (n : Z) : bool :=
  let month := Z.shiftr (n + 50) 5 in
  let preceding := _days_before_month month + leap_day leap month in
  let '(m, d) :=
    if preceding >? n
    then (month - 1, n - (preceding - dim_of leap (month - 1)) + 1)
    else (month, n - preceding + 1) in
  (1 <=? m) && (m <=? 12) && (1 <=? d) && (d <=? dim_of leap m)
  && (_days_before_month m + leap_day leap m + d =? n + 1).

Lemma months_checked :
  all_below 365 (month_day_ok false) && all_below 366 (month_day_ok true) = true.
Proof. vm_compute. reflexivity. Qed.

Lemma month_day_spec (leap : bool) (n : Z) :
  0 <= n < 365 -> month_day_ok leap n = true.
Proof.
  intros Hn. pose proof months_checked as H.
  apply andb_true_iff in H as [H1 H2].
  destruct leap; [apply (all_below_spec _ _ H2)|apply (all_below_spec _ _ H1)];
    lia.
Qed.

Lemma days_before_year_parts (q400 n100 n4 n1 : Z) :
  0 <= q400 -> 0 <= n100 <= 3 -> 0 <= n4 <= 24 -> 0 <= n1 <= 3 ->
  days_before_year (q400 * 400 + 1 + (n100 * 100 + n4 * 4 + n1))
  = q400 * DI400Y + n100 * DI100Y + n4 * DI4Y + n1 * 365.
Proof.
  intros H400 H100 H4 H1. unfold days_before_year, DI400Y, DI100Y, DI4Y.
  cbv zeta.
  set (a := q400 * 400 + 1 + (n100 * 100 + n4 * 4 + n1) - 1).
  assert (E4 : a / 4 = q400 * 100 + n100 * 25 + n4).
  { symmetry. apply (Z.div_unique a 4 _ n1); subst a; lia. }
  assert (E100 : a / 100 = q400 * 4 + n100).
  { symmetry. apply (Z.div_unique a 100 _ (n4 * 4 + n1)); subst a; lia. }
  assert (E400 : a / 400 = q400).
  { symmetry. apply (Z.div_unique a 400 _ (n100 * 100 + n4 * 4 + n1));
      subst a; lia. }
  rewrite E4, E100, E400. subst a. lia.
Qed.

Lemma is_leap_parts (q400 n100 n4 n1 : Z) :
  0 <= q400 -> 0 <= n100 <= 3 -> 0 <= n4 <= 24 -> 0 <= n1 <= 3 ->
  is_leap (q400 * 400 + 1 + (n100 * 100 + n4 * 4 + n1))
  = (n1 =? 3) && (negb (n4 =? 24) || (n100 =? 3)).
Proof.
  intros H400 H100 H4 H1. unfold is_leap.
  set (y := q400 * 400 + 1 + (n100 * 100 + n4 * 4 + n1)).
  assert (M4 : y mod 4 = (n1 + 1) mod 4).
  { subst y. replace (q400 * 400 + 1 + (n100 * 100 + n4 * 4 + n1))
      with (n1 + 1 + (q400 * 100 + n100 * 25 + n4) * 4) by lia.
    apply Z_mod_plus_full. }
  assert (M100 : y mod 100 = (n4 * 4 + n1 + 1) mod 100).
  { subst y. replace (q400 * 400 + 1 + (n100 * 100 + n4 * 4 + n1))
      with (n4 * 4 + n1 + 1 + (q400 * 4 + n100) * 100) by lia.
    apply Z_mod_plus_full. }
  assert (M400 : y mod 400 = (n100 * 100 + n4 * 4 + n1 + 1) mod 400).
  { subst y. replace (q400 * 400 + 1 + (n100 * 100 + n4 * 4 + n1))
      with (n100 * 100 + n4 * 4 + n1 + 1 + q400 * 400) by lia.
    apply Z_mod_plus_full. }
  rewrite M4, M100, M400. clear M4 M100 M400 y.
  destruct (Z.eqb_spec n1 3) as [->|Hn1].
  - replace ((3 + 1) mod 4) with 0 by reflexivity. cbn [Z.eqb andb].
    destruct (Z.eqb_spec n4 24) as [->|Hn4].
    + replace ((24 * 4 + 3 + 1) mod 100) with 0 by reflexivity.
      cbn [Z.eqb negb orb].
      destruct (Z.eqb_spec n100 3) as [->|Hn100]; [reflexivity|].
      rewrite Z.mod_small by lia.
      destruct (Z.eqb_spec (n100 * 100 + 24 * 4 + 3 + 1) 0); [lia|reflexivity].
    + rewrite (Z.mod_small (n4 * 4 + 3 + 1) 100) by lia.
      destruct (Z.eqb_spec (n4 * 4 + 3 + 1) 0); [lia|reflexivity].
  - rewrite (Z.mod_small (n1 + 1) 4) by lia.
    destruct (Z.eqb_spec (n1 + 1) 0); [lia|reflexivity].
Qed.

(** A date of the calendar, the year apart *)
Definition month_and_day (y m d : Z) : Prop :=
  1 <= m <= 12 /\ 1 <= d <= days_in_month y m.

Lemma ord_to_ymd_spec (o : Z) :
  1 <= o ->
  exists y m d,
    ord_to_ymd o = (y, m, d)
    /\ 1 <= y /\ month_and_day y m d /\ ymd_to_ord y m d = o.
Proof.
  intros Ho. unfold ord_to_ymd. cbv zeta.
  set (n0 := o - 1).
  assert (Hn0 : 0 <= n0) by (subst n0; lia).
  pose proof (Z.div_mod n0 DI400Y ltac:(discriminate)) as D400.
  pose proof (Z.mod_pos_bound n0 DI400Y ltac:(reflexivity)) as B400.
  pose proof (Z.div_pos n0 DI400Y Hn0 ltac:(reflexivity)) as P400.
  set (n400 := n0 / DI400Y) in *. set (r400 := n0 mod DI400Y) in *.
  pose proof (Z.div_mod r400 DI100Y ltac:(discriminate)) as D100.
  pose proof (Z.mod_pos_bound r400 DI100Y ltac:(reflexivity)) as B100.
  pose proof (Z.div_pos r400 DI100Y (proj1 B400) ltac:(reflexivity)) as P100.
  set (n100 := r400 / DI100Y) in *. set (r100 := r400 mod DI100Y) in *.
  pose proof (Z.div_mod r100 DI4Y ltac:(discriminate)) as D4.
  pose proof (Z.mod_pos_bound r100 DI4Y ltac:(reflexivity)) as B4.
  pose proof (Z.div_pos r100 DI4Y (proj1 B100) ltac:(reflexivity)) as P4.
  set (n4 := r100 / DI4Y) in *. set (r4 := r100 mod DI4Y) in *.
  pose proof (Z.div_mod r4 365 ltac:(discriminate)) as D1.
  pose proof (Z.mod_pos_bound r4 365 ltac:(reflexivity)) as B1.
  pose proof (Z.div_pos r4 365 (proj1 B4) ltac:(reflexivity)) as P1.
  set (n1 := r4 / 365) in *. set (n := r4 mod 365) in *.
  clearbody n400 r400 n100 r100 n4 r4 n1 n.
  unfold DI400Y, DI100Y, DI4Y in D400, B400, D100, B100, D4, B4.
  assert (H100 : n100 <= 4) by lia.
  assert (H4 : n4 <= 24) by lia.
  assert (H1 : n1 <= 4) by lia.
  destruct ((n1 =? 4) || (n100 =? 4)) eqn:Hspecial.
  - (* the last day of a leap year *)
    exists (n400 * 400 + 1 + (n100 * 100 + n4 * 4 + n1) - 1), 12, 31.
    split; [reflexivity|].
    apply orb_true_iff in Hspecial as [E|E]; apply Z.eqb_eq in E; subst.
    + (* n1 = 4: the day after three whole years of a four-year cycle *)
      assert (Hn : n = 0) by lia. assert (Hn4 : n4 <= 23) by lia.
      assert (Hn100 : n100 <= 3) by lia.
      replace (n400 * 400 + 1 + (n100 * 100 + n4 * 4 + 4) - 1)
        with (n400 * 400 + 1 + (n100 * 100 + n4 * 4 + 3)) by lia.
      pose proof (days_before_year_parts n400 n100 n4 3
                    ltac:(lia) ltac:(lia) ltac:(lia) ltac:(lia)) as Hd.
      pose proof (is_leap_parts n400 n100 n4 3
                    ltac:(lia) ltac:(lia) ltac:(lia) ltac:(lia)) as Hl.
      destruct (Z.eqb_spec n4 24) as [?|_]; [lia|]. cbn in Hl.
      set (y := n400 * 400 + 1 + (n100 * 100 + n4 * 4 + 3)) in *.
      split; [subst y; lia|]. split.
      * split; [lia|]. rewrite days_in_month_leap. cbn. lia.
      * unfold ymd_to_ord. rewrite days_before_month_leap by lia.
        rewrite Hd, Hl. unfold DI400Y, DI100Y, DI4Y.
        change (_days_before_month 12 + leap_day true 12) with 335.
        subst n0. lia.
    + (* n100 = 4: the last day of a 400-year cycle *)
      assert (Hz : n4 = 0 /\ n1 = 0 /\ n = 0) by lia.
      destruct Hz as (-> & -> & ->).
      replace (n400 * 400 + 1 + (4 * 100 + 0 * 4 + 0) - 1)
        with (n400 * 400 + 1 + (3 * 100 + 24 * 4 + 3)) by lia.
      pose proof (days_before_year_parts n400 3 24 3
                    ltac:(lia) ltac:(lia) ltac:(lia) ltac:(lia)) as Hd.
      pose proof (is_leap_parts n400 3 24 3
                    ltac:(lia) ltac:(lia) ltac:(lia) ltac:(lia)) as Hl.
      cbn in Hl.
      set (y := n400 * 400 + 1 + (3 * 100 + 24 * 4 + 3)) in *.
      split; [subst y; lia|]. split.
      * split; [lia|]. rewrite days_in_month_leap. cbn. lia.
      * unfold ymd_to_ord. rewrite days_before_month_leap by lia.
        rewrite Hd, Hl. unfold DI400Y, DI100Y, DI4Y.
        change (_days_before_month 12 + leap_day true 12) with 335.
        subst n0. lia.
  - apply orb_false_iff in Hspecial as [E1 E100].
    apply Z.eqb_neq in E1. apply Z.eqb_neq in E100.
    pose proof (days_before_year_parts n400 n100 n4 n1
                  ltac:(lia) ltac:(lia) ltac:(lia) ltac:(lia)) as Hd.
    pose proof (is_leap_parts n400 n100 n4 n1
                  ltac:(lia) ltac:(lia) ltac:(lia) ltac:(lia)) as Hl.
    set (y := n400 * 400 + 1 + (n100 * 100 + n4 * 4 + n1)) in *.
    rewrite <- Hl. fold (leap_day (is_leap y) (Z.shiftr (n + 50) 5)).
    rewrite days_in_month_leap.
    pose proof (month_day_spec (is_leap y) n ltac:(lia)) as Hm.
    unfold month_day_ok in Hm. cbv zeta in Hm.
    set (month := Z.shiftr (n + 50) 5) in *.
    set (preceding := _days_before_month month + leap_day (is_leap y) month) in *.
    destruct (preceding >? n).
    + repeat (apply andb_true_iff in Hm as [Hm ?]).
      eexists _, _, _. split; [reflexivity|].
      split; [subst y; lia|]. split.
      * split; [lia|]. rewrite days_in_month_leap. lia.
      * unfold ymd_to_ord. rewrite days_before_month_leap by lia.
        rewrite Hd. unfold DI400Y, DI100Y, DI4Y. subst n0. lia.
    + repeat (apply andb_true_iff in Hm as [Hm ?]).
      eexists _, _, _. split; [reflexivity|].
      split; [subst y; lia|]. split.
      * split; [lia|]. rewrite days_in_month_leap. lia.
      * unfold ymd_to_ord. rewrite days_before_month_leap by lia.
        rewrite Hd. unfold DI400Y, DI100Y, DI4Y. subst n0. lia.
Qed.

Lemma days_before_year_bounds (y : Z) :
  1 <= y <= 9999 ->
  0 <= days_before_year y <= 3651694 - 365 * (9999 - y).
Proof.
  intros Hy. unfold days_before_year. cbv zeta.
  Z.div_mod_to_equations. lia.
Qed.

Lemma days_before_year_late (y : Z) :
  10000 <= y -> MAXORDINAL <= days_before_year y.
Proof.
  intros Hy. unfold days_before_year, MAXORDINAL. cbv zeta.
  Z.div_mod_to_equations. lia.
Qed.

Lemma days_before_year_step (y : Z) :
  1 <= y ->
  days_before_year (y + 1)
  = days_before_year y + 365 + (if is_leap y then 1 else 0).
Proof.
  intros Hy. unfold days_before_year, is_leap. cbv zeta.
  replace (y + 1 - 1) with y by lia.
  destruct (Z.eqb_spec (y mod 4) 0) as [E4|E4];
    destruct (Z.eqb_spec (y mod 100) 0) as [E100|E100];
    destruct (Z.eqb_spec (y mod 400) 0) as [E400|E400];
    cbn [andb orb negb];
    Z.div_mod_to_equations; lia.
Qed.

Lemma leap_year_early (y : Z) : 1 <= y <= 9999 -> is_leap y = true -> y <= 9996.
Proof.
  intros Hy H. unfold is_leap in H. apply andb_true_iff in H as [H _].
  apply Z.eqb_eq in H. Z.div_mod_to_equations. lia.
Qed.

Lemma month_table (leap : bool) (m : Z) :
  1 <= m <= 12 ->
  0 <= _days_before_month m + leap_day leap m
  /\ _days_before_month m + leap_day leap m + dim_of leap m
     <= 365 + (if leap then 1 else 0)
  /\ 28 <= dim_of leap m <= 31
  /\ (m < 12 ->
      _days_before_month (m + 1) + leap_day leap (m + 1)
      = _days_before_month m + leap_day leap m + dim_of leap m)
  /\ (m = 12 ->
      _days_before_month m + leap_day leap m + dim_of leap m
      = 365 + (if leap then 1 else 0))
  /\ (m = 1 -> _days_before_month m + leap_day leap m = 0).
Proof.
  intros Hm.
  assert (Hc : m = 1 \/ m = 2 \/ m = 3 \/ m = 4 \/ m = 5 \/ m = 6 \/ m = 7
               \/ m = 8 \/ m = 9 \/ m = 10 \/ m = 11 \/ m = 12) by lia.
  destruct leap;
    repeat (destruct Hc as [Hc|Hc]; [subst m|]); try subst m;
    repeat split; intros; try lia; vm_compute; try reflexivity;
    intros H'; discriminate H'.
Qed.

Lemma ymd_to_ord_bounds (y m d : Z) :
  1 <= y <= 9999 -> month_and_day y m d ->
  1 <= ymd_to_ord y m d <= MAXORDINAL.
Proof.
  intros Hy [Hm Hd]. unfold ymd_to_ord, MAXORDINAL.
  rewrite days_before_month_leap by exact Hm.
  rewrite days_in_month_leap in Hd.
  pose proof (days_before_year_bounds y Hy) as Hb.
  pose proof (month_table (is_leap y) m Hm) as (T1 & T2 & _).
  destruct (is_leap y) eqn:El.
  - pose proof (leap_year_early y Hy El). lia.
  - lia.
Qed.

Lemma ord_to_ymd_valid (o : Z) :
  1 <= o <= MAXORDINAL ->
  exists y m d,
    ord_to_ymd o = (y, m, d)
    /\ 1 <= y <= 9999 /\ month_and_day y m d /\ ymd_to_ord y m d = o.
Proof.
  intros [Ho Hmax].
  destruct (ord_to_ymd_spec o Ho) as (y & m & d & E & Hy & Hmd & Hord).
  exists y, m, d. split; [exact E|]. split; [|split; assumption].
  split; [exact Hy|].
  destruct (Z_le_gt_dec y 9999) as [Hle|Hgt]; [exact Hle|exfalso].
  pose proof (days_before_year_late y ltac:(lia)) as Hl.
  destruct Hmd as [Hm Hd]. unfold ymd_to_ord in Hord.
  rewrite days_before_month_leap in Hord by exact Hm.
  pose proof (month_table (is_leap y) m Hm) as (T1 & _). lia.
Qed.

(** What [normalize_y_m_d] does to a date whose day is any integer: the
    date of the same ordinal, if there is one. *)
Lemma normalize_spec (y m d : Z) :
  1 <= y <= 9999 -> 1 <= m <= 12 ->
  let o := ymd_to_ord y m d in
  (1 <= o <= MAXORDINAL ->
   exists y' m' d',
     normalize_y_m_d y m d = Some (y', m', d')
     /\ 1 <= y' <= 9999 /\ month_and_day y' m' d'
     /\ ymd_to_ord y' m' d' = o)
  /\ (~ 1 <= o <= MAXORDINAL -> normalize_y_m_d y m d = None).
Proof.
  intros Hy Hm. cbv zeta.
  assert (Hin : forall y' m' d',
             1 <= y' <= 9999 -> month_and_day y' m' d' ->
             ymd_to_ord y' m' d' = ymd_to_ord y m d ->
             ((if (MINYEAR <=? y') && (y' <=? MAXYEAR)
               then Some (y', m', d') else None) = Some (y', m', d')
              -> 1 <= ymd_to_ord y m d <= MAXORDINAL ->
              exists a b c,
                Some (y', m', d') = Some (a, b, c)
                /\ 1 <= a <= 9999 /\ month_and_day a b c
                /\ ymd_to_ord a b c = ymd_to_ord y m d)
             /\ 1 <= ymd_to_ord y m d <= MAXORDINAL).
  { intros y' m' d' Hy' Hmd E. split.
    - intros _ _. exists y', m', d'. auto.
    - rewrite <- E. apply ymd_to_ord_bounds; assumption. }
  assert (Hyes : forall y' : Z, 1 <= y' <= 9999 ->
                   (MINYEAR <=? y') && (y' <=? MAXYEAR) = true).
  { intros y' Hy'. unfold MINYEAR, MAXYEAR.
    apply andb_true_iff. split; apply Z.leb_le; lia. }
  pose proof (month_table (is_leap y) m Hm) as (T1 & T2 & T3 & T4 & T5 & T6).
  unfold normalize_y_m_d. cbv zeta. rewrite !days_in_month_leap.
  destruct ((d <? 1) || (d >? dim_of (is_leap y) m)) eqn:Hout.
  - destruct (Z.eqb_spec d 0) as [->|Hd0].
    + destruct (Z.gtb_spec (m - 1) 0) as [Hm1|Hm1].
      * (* the last day of the month before *)
        rewrite Hyes by exact Hy.
        pose proof (month_table (is_leap y) (m - 1) ltac:(lia))
          as (_ & _ & U3 & U4 & _).
        assert (E : ymd_to_ord y (m - 1) (dim_of (is_leap y) (m - 1))
                    = ymd_to_ord y m 0).
        { unfold ymd_to_ord. rewrite !days_before_month_leap by lia.
          specialize (U4 ltac:(lia)). replace (m - 1 + 1) with m in U4 by lia.
          lia. }
        assert (Hv : month_and_day y (m - 1) (dim_of (is_leap y) (m - 1))).
        { split; [lia|]. rewrite days_in_month_leap. lia. }
        destruct (Hin _ _ _ Hy Hv E) as [_ Hr].
        split; [|intros Hn; exfalso; exact (Hn Hr)].
        intros _. eexists _, _, _. split; [reflexivity|]. auto.
      * (* the last day of the year before *)
        assert (m = 1) by lia. subst m.
        assert (E0 : ymd_to_ord y 1 0 = days_before_year y).
        { unfold ymd_to_ord. rewrite days_before_month_leap by lia.
          specialize (T6 eq_refl). lia. }
        rewrite E0.
        destruct (Z.eq_dec y 1) as [->|Hy1].
        -- assert (Ez : days_before_year 1 = 0) by reflexivity. rewrite Ez.
           split; [intros Hr; lia|]. intros _. reflexivity.
        -- rewrite Hyes by lia.
           assert (Hv : month_and_day (y - 1) 12 31).
           { split; [lia|]. rewrite days_in_month_leap. cbn. lia. }
           assert (E : ymd_to_ord (y - 1) 12 31 = ymd_to_ord y 1 0).
           { rewrite E0. unfold ymd_to_ord.
             rewrite days_before_month_leap by lia.
             pose proof (days_before_year_step (y - 1) ltac:(lia)) as Hs.
             replace (y - 1 + 1) with y in Hs by lia. rewrite Hs.
             destruct (is_leap (y - 1)); vm_compute (_days_before_month 12 + _);
               lia. }
           destruct (Hin (y - 1) 12 31 ltac:(lia) Hv E) as [_ Hr].
           rewrite E0 in Hr.
           split; [|intros Hn; exfalso; exact (Hn Hr)].
           intros _. eexists _, _, _. split; [reflexivity|].
           split; [lia|]. split; [exact Hv|]. rewrite E. exact E0.
    + destruct (Z.eqb_spec d (dim_of (is_leap y) m + 1)) as [->|Hd1].
      * destruct (Z.gtb_spec (m + 1) 12) as [Hm12|Hm12].
        -- (* the first day of the year after *)
           assert (m = 12) by lia. subst m. specialize (T5 eq_refl).
           assert (E0 : ymd_to_ord y 12 (dim_of (is_leap y) 12 + 1)
                        = days_before_year (y + 1) + 1).
           { unfold ymd_to_ord. rewrite days_before_month_leap by lia.
             rewrite (days_before_year_step y ltac:(lia)).
             destruct (is_leap y); lia. }
           rewrite E0.
           destruct (Z.eq_dec y 9999) as [->|Hy9].
           ++ assert (Ez : days_before_year (9999 + 1) = 3652059) by reflexivity.
              rewrite Ez. unfold MAXORDINAL.
              split; [intros Hr; lia|]. intros _. reflexivity.
           ++ rewrite Hyes by lia.
              assert (Hv : month_and_day (y + 1) 1 1).
              { split; [lia|]. rewrite days_in_month_leap. cbn. lia. }
              assert (E : ymd_to_ord (y + 1) 1 1
                          = ymd_to_ord y 12 (dim_of (is_leap y) 12 + 1)).
              { rewrite E0. unfold ymd_to_ord.
                rewrite days_before_month_leap by lia.
                pose proof (month_table (is_leap (y + 1)) 1 ltac:(lia))
                  as (_ & _ & _ & _ & _ & V6).
                specialize (V6 eq_refl). lia. }
              destruct (Hin (y + 1) 1 1 ltac:(lia) Hv E) as [_ Hr].
              rewrite E0 in Hr.
              split; [|intros Hn; exfalso; exact (Hn Hr)].
              intros _. eexists _, _, _. split; [reflexivity|].
              split; [lia|]. split; [exact Hv|]. rewrite E. exact E0.
        -- (* the first day of the month after *)
           rewrite Hyes by exact Hy.
           assert (Hv : month_and_day y (m + 1) 1).
           { split; [lia|]. rewrite days_in_month_leap.
             pose proof (month_table (is_leap y) (m + 1) ltac:(lia))
               as (_ & _ & U3 & _). lia. }
           assert (E : ymd_to_ord y (m + 1) 1
                       = ymd_to_ord y m (dim_of (is_leap y) m + 1)).
           { unfold ymd_to_ord. rewrite !days_before_month_leap by lia.
             specialize (T4 ltac:(lia)). lia. }
           destruct (Hin _ _ _ Hy Hv E) as [_ Hr].
           split; [|intros Hn; exfalso; exact (Hn Hr)].
           intros _. eexists _, _, _. split; [reflexivity|]. auto.
      * (* farther away: by way of the ordinal *)
        replace (ymd_to_ord y m 1 + d - 1) with (ymd_to_ord y m d)
          by (unfold ymd_to_ord; lia).
        destruct ((ymd_to_ord y m d <? 1) || (ymd_to_ord y m d >? MAXORDINAL))
          eqn:Hr.
        -- split; [|reflexivity]. intros Hin'. exfalso.
           apply orb_true_iff in Hr as [Hr|Hr];
             [apply Z.ltb_lt in Hr|apply Z.gtb_lt in Hr]; lia.
        -- apply orb_false_iff in Hr as [Hr1 Hr2].
           apply Z.ltb_ge in Hr1.
           assert (Hr2' : ymd_to_ord y m d <= MAXORDINAL).
           { destruct (Z.gtb_spec (ymd_to_ord y m d) MAXORDINAL);
               [discriminate|lia]. }
           split; [|intros Hn; exfalso; apply Hn; lia].
           intros _.
           destruct (ord_to_ymd_valid _ (conj Hr1 Hr2'))
             as (y' & m' & d' & -> & Hy' & Hmd & Hord).
           exists y', m', d'. auto.
  - (* the day is one of the month *)
    apply orb_false_iff in Hout as [H1 H2]. apply Z.ltb_ge in H1.
    assert (H2' : d <= dim_of (is_leap y) m).
    { destruct (Z.gtb_spec d (dim_of (is_leap y) m)); [discriminate|lia]. }
    rewrite Hyes by exact Hy.
    assert (Hv : month_and_day y m d).
    { split; [lia|]. rewrite days_in_month_leap. lia. }
    destruct (Hin _ _ _ Hy Hv eq_refl) as [_ Hr].
    split; [|intros Hn; exfalso; exact (Hn Hr)].
    intros _. exists y, m, d. auto.
Qed.


(** ** Windows of [get_time_filter_suggestion] *)

Lemma valid_datetime_fields (d : datetime) :
  valid_datetime d = true <->
  (1 <= year d <= 9999 /\ month_and_day (year d) (month d) (day d)
   /\ 0 <= hour d <= 23 /\ 0 <= minute d <= 59 /\ 0 <= second d <= 59).
Proof.
  unfold valid_datetime, month_and_day.
  rewrite !andb_true_iff, !Z.leb_le. tauto.
Qed.

Definition within_reach (dt : datetime) (n : Z) : Prop :=
  - MAX_DELTA_DAYS <= n <= MAX_DELTA_DAYS
  /\ 1 <= toordinal dt - n <= MAXORDINAL.

Lemma within_reach_dec (dt : datetime) (n : Z) :
  within_reach dt n \/ ~ within_reach dt n.
Proof. unfold within_reach. lia. Qed.

Lemma minus_days_spec (dt : datetime) (n : Z) :
  valid_datetime dt = true ->
  (within_reach dt n ->
   exists dt',
     minus_days dt n = Some dt'
     /\ valid_datetime dt' = true
     /\ toordinal dt' = toordinal dt - n
     /\ hour dt' = hour dt /\ minute dt' = minute dt
     /\ second dt' = second dt /\ microsecond dt' = microsecond dt)
  /\ (~ within_reach dt n -> minus_days dt n = None).
Proof.
  intros Hv. apply valid_datetime_fields in Hv as (Hy & [Hm Hd] & Hh & Hmi & Hs).
  unfold within_reach, minus_days, timedelta_days.
  destruct (normalize_spec (year dt) (month dt) (day dt - n) Hy Hm)
    as [Hsome Hnone].
  assert (Eo : ymd_to_ord (year dt) (month dt) (day dt - n) = toordinal dt - n).
  { unfold ymd_to_ord, toordinal. lia. }
  rewrite Eo in Hsome, Hnone.
  destruct ((- MAX_DELTA_DAYS <=? n) && (n <=? MAX_DELTA_DAYS)) eqn:Hr.
  - apply andb_true_iff in Hr as [Hr1 Hr2].
    apply Z.leb_le in Hr1. apply Z.leb_le in Hr2. split.
    + intros [_ Ho]. destruct (Hsome Ho) as (y' & m' & d' & -> & Hy' & Hmd & Hord).
      eexists. split; [reflexivity|].
      split; [apply valid_datetime_fields; cbn [year month day hour minute second];
              auto|].
      cbn [hour minute second microsecond]. unfold toordinal.
      cbn [year month day]. unfold ymd_to_ord in Hord. auto.
    + intros Hn. rewrite Hnone; [reflexivity|]. intros Ho. apply Hn. lia.
  - split; [|reflexivity]. intros [Hn _]. exfalso.
    apply andb_false_iff in Hr as [Hr|Hr]; apply Z.leb_gt in Hr; lia.
Qed.

Lemma to_us_of_ordinal (a b : datetime) (k : Z) :
  toordinal a = toordinal b - k ->
  hour a = hour b -> minute a = minute b -> second a = second b ->
  microsecond a = microsecond b ->
  to_us a = to_us b - k * US_PER_DAY.
Proof.
  intros Ho Hh Hm Hs Hu. unfold to_us, US_PER_DAY. rewrite Ho, Hh, Hm, Hs, Hu.
  lia.
Qed.

(** X14: [get_time_filter_suggestion], for a clock that shows a date of
    the calendar.  Every window ends at the clock; today's window starts
    at midnight of the clock's day, not after the clock and less than a
    day before it; the windows of 7, 30 and [time_range_days] days start
    at midnight exactly that many days before today's midnight, on a date
    of the calendar.  A range that is not negative gives a window that
    starts before it ends; a negative range gives one that starts after
    its end.  The answer is the error dictionary exactly when the clock is
    in the first 30 days of year 1, or [time_range_days] is beyond what
    [timedelta] holds, or the start of the custom window falls outside
    the years 1 to 9999. *)
Theorem time_filter_windows_start_whole_days_before_midnight
    (now : datetime) (time_range_days : Z) :
  valid_datetime now = true ->
  0 <= microsecond now < 1000000 ->
  let midnight := DateTime (year now) (month now) (day now) 0 0 0 0 in
  match get_time_filter_suggestion now time_range_days with
  | Some s =>
      s_current_time s = now
      /\ w_end (today s) = now /\ w_end (last_7_days s) = now
      /\ w_end (last_30_days s) = now /\ w_end (custom_range s) = now
      /\ w_start (today s) = midnight
      /\ to_us midnight <= to_us now < to_us midnight + US_PER_DAY
      /\ to_us (w_start (last_7_days s)) = to_us midnight - 7 * US_PER_DAY
      /\ to_us (w_start (last_30_days s)) = to_us midnight - 30 * US_PER_DAY
      /\ to_us (w_start (custom_range s))
         = to_us midnight - time_range_days * US_PER_DAY
      /\ valid_datetime (w_start (last_7_days s)) = true
      /\ valid_datetime (w_start (last_30_days s)) = true
      /\ valid_datetime (w_start (custom_range s)) = true
      /\ (0 <= time_range_days ->
          to_us (w_start (custom_range s)) <= to_us (w_end (custom_range s)))
      /\ (time_range_days < 0 ->
          to_us (w_end (custom_range s)) < to_us (w_start (custom_range s)))
      /\ 30 < toordinal now
      /\ within_reach now time_range_days
  | None =>
      toordinal now <= 30 \/ ~ within_reach now time_range_days
  end.
Proof.
  intros Hv Hus. cbv zeta.
  set (midnight := DateTime (year now) (month now) (day now) 0 0 0 0).
  assert (Hord : toordinal midnight = toordinal now) by reflexivity.
  pose proof Hv as Hv'.
  apply valid_datetime_fields in Hv' as (Hy & Hmd & Hh & Hmi & Hs).
  assert (Hvm : valid_datetime midnight = true).
  { apply valid_datetime_fields. cbn [year month day hour minute second midnight].
    repeat split; try lia; try apply Hy; try apply Hmd. }
  assert (Hmid : to_us midnight <= to_us now < to_us midnight + US_PER_DAY).
  { unfold to_us, US_PER_DAY. rewrite Hord.
    cbn [hour minute second microsecond midnight]. lia. }
  assert (Hb : 1 <= toordinal now <= MAXORDINAL).
  { apply ymd_to_ord_bounds; assumption. }
  assert (Hreach : forall k, within_reach midnight k <-> within_reach now k).
  { intros k. unfold within_reach. rewrite Hord. tauto. }
  unfold get_time_filter_suggestion. cbv zeta. fold midnight.
  destruct (minus_days_spec midnight 7 Hvm) as [S7 N7].
  destruct (minus_days_spec midnight 30 Hvm) as [S30 N30].
  destruct (minus_days_spec midnight time_range_days Hvm) as [Sc Nc].
  destruct (within_reach_dec midnight 30) as [R30|R30].
  - assert (R7 : within_reach midnight 7).
    { unfold within_reach, MAX_DELTA_DAYS, MAXORDINAL in *. lia. }
    destruct (S7 R7) as (d7 & -> & V7 & O7 & H7 & M7 & Se7 & U7).
    destruct (S30 R30) as (d30 & -> & V30 & O30 & H30 & M30 & Se30 & U30).
    destruct (within_reach_dec midnight time_range_days) as [Rc|Rc].
    + destruct (Sc Rc) as (dc & -> & Vc & Oc & Hc & Mc & Sec & Uc).
      cbn [s_current_time today last_7_days last_30_days custom_range
           w_start w_end].
      pose proof (to_us_of_ordinal _ _ _ O7 H7 M7 Se7 U7) as T7.
      pose proof (to_us_of_ordinal _ _ _ O30 H30 M30 Se30 U30) as T30.
      pose proof (to_us_of_ordinal _ _ _ Oc Hc Mc Sec Uc) as Tc.
      pose proof US_PER_DAY_pos as Hp.
      split; [reflexivity|]. split; [reflexivity|]. split; [reflexivity|].
      split; [reflexivity|]. split; [reflexivity|]. split; [reflexivity|].
      split; [exact Hmid|]. split; [exact T7|]. split; [exact T30|].
      split; [exact Tc|]. split; [exact V7|]. split; [exact V30|].
      split; [exact Vc|].
      split; [intros Hn; rewrite Tc; nia|].
      split; [intros Hn; rewrite Tc; nia|].
      split; [unfold within_reach in R30; lia|].
      apply Hreach. exact Rc.
    + rewrite (Nc Rc). right. intros H. apply Rc, Hreach. exact H.
  - rewrite (N30 R30).
    destruct (minus_days midnight 7); left;
      unfold within_reach, MAX_DELTA_DAYS, MAXORDINAL in *; lia.
Qed.

(** A run of X14: the clock at noon of 2026-11-04, thirty days asked. *)
Lemma time_filter_witness :
  let now := DateTime 2026 11 4 12 0 0 0 in
  valid_datetime now = true
  /\ 0 <= microsecond now < 1000000
  /\ exists s,
       get_time_filter_suggestion now 30 = Some s
       /\ to_us (w_start (custom_range s))
          = to_us (DateTime 2026 11 4 0 0 0 0) - 30 * US_PER_DAY.
Proof.
  cbv zeta.
  assert (H1 : valid_datetime (DateTime 2026 11 4 12 0 0 0) = true)
    by reflexivity.
  assert (H2 : 0 <= microsecond (DateTime 2026 11 4 12 0 0 0) < 1000000)
    by (cbn; lia).
  split; [exact H1|]. split; [exact H2|].
  pose proof (time_filter_windows_start_whole_days_before_midnight
                (DateTime 2026 11 4 12 0 0 0) 30 H1 H2) as H.
  cbv zeta in H.
  destruct (get_time_filter_suggestion (DateTime 2026 11 4 12 0 0 0) 30)
    as [s|] eqn:E.
  - exists s. split; [reflexivity|]. apply H.
  - vm_compute in E. discriminate E.
Defined.

End TimeToolsProps.

(* ===================================================================== *)
(** * Properties of mcp_manager.py                                        *)
(* ===================================================================== *)

Module MCPManagerProps.
Import Py Eff MCPManager.
Local Open Scope eff_scope.

Section Props.
Context {B : Backend}.

Ltac eff_unfold :=
  unfold log, record_call, external, fresh_client, set_self in *;
  unfold bind, try_except, ret, raise, get, modify, of_outcome in *;
  cbv beta iota in *.

(** ** cleanup *)

Definition release (c : client) : M state unit :=
  try_except (exit_ c)
    (fun e => log ERROR (u "关闭客户端连接失败: " ++ exn_text e)).

Lemma release_ok (c : client) (st : state) :
  exists st',
    release c st = (Ok tt, st')
    /\ self st' = self st
    /\ next_client st' = next_client st
    /\ calls st' = calls st ++ [CallExit c].
Proof.
  unfold release, exit_. eff_unfold. cbn.
  destruct (client_exit c (world st)) as [[[]|e] w]; eauto.
Qed.

Lemma release_all_ok (cs : list client) :
  forall st,
    exists st',
      for_each cs release st = (Ok tt, st')
      /\ self st' = self st
      /\ next_client st' = next_client st
      /\ calls st' = calls st ++ map CallExit cs.
Proof.
  induction cs as [|c cs IH]; intros st; cbn [for_each map].
  - exists st. rewrite app_nil_r. auto.
  - unfold bind. destruct (release_ok c st) as (st1 & -> & Hs1 & Hn1 & Hc1).
    destruct (IH st1) as (st2 & -> & Hs2 & Hn2 & Hc2).
    exists st2. rewrite Hs2, Hn2, Hc2, Hs1, Hn1, Hc1, <- app_assoc. auto.
Qed.

Lemma cleanup_spec (st : state) :
  exists st',
    cleanup st = (Ok tt, st')
    /\ self st' = Manager [] [] []
    /\ next_client st' = next_client st
    /\ calls st' = calls st ++ map CallExit (_active_clients (self st)).
Proof.
  unfold cleanup. fold release. unfold bind at 1. unfold get at 1. unfold bind at 1.
  destruct (release_all_ok (_active_clients (self st)) st)
    as (st1 & -> & Hs1 & Hn1 & Hc1).
  eff_unfold. cbn. eauto.
Qed.

(** C3: [cleanup] calls [__exit__] on every active connection, in the
    order of activation, whatever each call does (a failure is caught and
    the next connection is still released); afterwards the active list,
    the known list and the tool cache are empty; it returns normally on
    every state, in particular on a manager that was never initialised and
    when called a second time, where it releases nothing and leaves the
    three lists empty again. *)
Theorem cleanup_releases_all_and_is_idempotent (st : state) :
  exists st1 st2,
    cleanup st = (Ok tt, st1)
    /\ calls st1 = calls st ++ map CallExit (_active_clients (self st))
    /\ clients (self st1) = [] /\ tools (self st1) = []
    /\ _active_clients (self st1) = []
    /\ cleanup st1 = (Ok tt, st2)
    /\ calls st2 = calls st1
    /\ clients (self st2) = [] /\ tools (self st2) = []
    /\ _active_clients (self st2) = []
    /\ forall w lg n cl,
         exists st0,
           cleanup (State init w lg n cl) = (Ok tt, st0)
           /\ calls st0 = cl /\ self st0 = init.
Proof.
  destruct (cleanup_spec st) as (st1 & H1 & Hs1 & _ & Hc1).
  destruct (cleanup_spec st1) as (st2 & H2 & Hs2 & _ & Hc2).
  exists st1, st2. rewrite Hs1 in Hc2. cbn in Hc2. rewrite app_nil_r in Hc2.
  rewrite Hs1, Hs2. cbn. repeat split; auto.
  intros w lg n cl.
  destruct (cleanup_spec (State init w lg n cl)) as (st0 & H0 & Hs0 & _ & Hc0).
  exists st0. cbn in Hc0. rewrite app_nil_r in Hc0. auto.
Qed.


(** ** initialize_clients *)

(** What one configuration leads to: [None] when its client is built,
    else the exception that [_create_client] catches. *)
Definition attempt (cfg : config) (w : World) : option exn * World :=
  match cfg !! "command"%string with
  | None => (Some (Exn KeyErrorK (u "'" ++ u "command" ++ u "'")), w)
  | Some command =>
      match new_client command (default (VList []) (cfg !! "args"%string))
                       (default (VDict []) (cfg !! "env"%string)) w with
      | (Ok _, w') => (None, w')
      | (Raise e, w') => (Some e, w')
      end
  end.

Lemma create_client_spec (cfg : config) (st : state) :
  _create_client cfg st =
  match attempt cfg (world st) with
  | (None, w) =>
      (Ok (Some (next_client st)),
       State (self st) w (logs st) (S (next_client st)) (calls st))
  | (Some e, w) =>
      (Ok None,
       State (self st) w
             (logs st ++ [LogRecord ERROR (u "创建 MCP 客户端失败: " ++ exn_text e)])
             (next_client st) (calls st))
  end.
Proof.
  unfold _create_client, attempt, getitem.
  destruct (cfg !! "command"%string) as [command|].
  - eff_unfold. cbn [world self logs next_client calls].
    destruct (new_client command _ _ (world st)) as [[[]|e] w]; reflexivity.
  - eff_unfold. reflexivity.
Qed.






(** One turn of the loop of [initialize_clients], case by case. *)
Lemma initialize_loop_cons (cfg : config) (cfgs : list config)
    (acc : list client) (st : state) :
  initialize_loop (cfg :: cfgs) acc st =
  match attempt cfg (world st) with
  | (Some e, w') =>
      initialize_loop cfgs acc
        (State (self st) w'
           (logs st ++ [LogRecord ERROR (u "创建 MCP 客户端失败: " ++ exn_text e)])
           (next_client st) (calls st))
  | (None, w') =>
      match cfg !! "name"%string with
      | Some name =>
          initialize_loop cfgs (acc ++ [next_client st])
            (State (self st) w'
               (logs st ++ [LogRecord INFO (u "成功连接到 MCP 服务器: "
                                            ++ value_str name)])
               (S (next_client st)) (calls st))
      | None =>
          (Raise (Exn KeyErrorK (u "'" ++ u "name" ++ u "'")),
           State (self st) w' (logs st) (S (next_client st)) (calls st))
      end
  end.
Proof.
  cbn [initialize_loop].
  unfold bind at 1. unfold try_except at 1. unfold bind at 1.
  rewrite create_client_spec.
  destruct (attempt cfg (world st)) as [[e|] w'].
  - eff_unfold. reflexivity.
  - unfold getitem. destruct (cfg !! "name"%string) as [name|];
      eff_unfold; reflexivity.
Qed.

Lemma initialize_loop_frame (cfgs : list config) :
  forall acc st r st',
    initialize_loop cfgs acc st = (r, st') ->
    self st' = self st /\ calls st' = calls st.
Proof.
  induction cfgs as [|cfg cfgs IH]; intros acc st r st' H.
  - cbn in H. unfold ret in H. inversion H; subst. auto.
  - rewrite initialize_loop_cons in H.
    destruct (attempt cfg (world st)) as [[e|] w'].
    + apply IH in H. exact H.
    + destruct (cfg !! "name"%string) as [name|].
      * apply IH in H. exact H.
      * inversion H; subst. auto.
Qed.



Lemma initialize_clients_frame (cfgs : list config) (st : state) :
  forall r st',
    initialize_clients cfgs st = (r, st') ->
    tools (self st') = tools (self st)
    /\ _active_clients (self st') = _active_clients (self st)
    /\ calls st' = calls st
    /\ match r with
       | Ok cs => clients (self st') = cs
       | Raise _ => clients (self st') = clients (self st)
       end.
Proof.
  intros r st'. unfold initialize_clients. unfold bind at 1.
  destruct (initialize_loop cfgs [] st) as [[cs|e] st1] eqn:Hl;
    apply initialize_loop_frame in Hl as [Hs Hc].
  - eff_unfold. intros H. inversion H; subst. cbn. rewrite Hs. auto.
  - intros H. inversion H; subst. rewrite Hs. auto.
Qed.


(** ** get_all_tools *)

Ltac proj_simpl :=
  cbn [self world logs next_client calls clients tools _active_clients
       fst snd] in *.

Lemma tools_turn_spec (c : client) (acc : list Tool) (st : state) :
  exists a st1,
    tools_turn c acc st = (Ok a, st1)
    /\ clients (self st1) = clients (self st)
    /\ tools (self st1) = tools (self st)
    /\ (_active_clients (self st1) = _active_clients (self st)
        \/ _active_clients (self st1) = _active_clients (self st) ++ [c]).
Proof.
  unfold tools_turn, enter, list_tools. eff_unfold. proj_simpl.
  destruct (bool_decide (c ∈ _active_clients (self st))).
  - proj_simpl.
    destruct (list_tools_sync c (world st)) as [[[|t ts]|e] w2];
      proj_simpl; eauto 10.
  - proj_simpl.
    destruct (client_enter c (world st)) as [[[]|e] w1]; proj_simpl;
      [|eauto 10].
    destruct (list_tools_sync c w1) as [[[|t ts]|e] w2];
      proj_simpl; eauto 10.
Qed.

(** The active connections are among the known ones. *)
Definition active_known (st : state) : Prop :=
  forall c, c ∈ _active_clients (self st) -> c ∈ clients (self st).

Lemma tools_loop_spec (cs : list client) :
  forall acc st,
    (forall c, c ∈ cs -> c ∈ clients (self st)) ->
    active_known st ->
    exists a st',
      tools_loop cs acc st = (Ok a, st')
      /\ clients (self st') = clients (self st)
      /\ tools (self st') = tools (self st)
      /\ active_known st'.
Proof.
  induction cs as [|c cs IH]; intros acc st Hcs Hinv.
  - cbn. unfold ret. eauto 10.
  - cbn [tools_loop]. unfold bind.
    destruct (tools_turn_spec c acc st) as (a & st1 & -> & Hc1 & Ht1 & Ha1).
    destruct (IH a st1) as (a' & st' & -> & Hc' & Ht' & Hinv').
    + intros x Hx. rewrite Hc1. apply Hcs. right. exact Hx.
    + intros x Hx. rewrite Hc1. destruct Ha1 as [Ha1|Ha1]; rewrite Ha1 in Hx.
      * apply Hinv. exact Hx.
      * apply elem_of_app in Hx as [Hx|Hx]; [apply Hinv; exact Hx|].
        apply list_elem_of_singleton in Hx. subst x. apply Hcs. left.
    + exists a', st'. rewrite Hc', Ht', Hc1, Ht1. auto.
Qed.

Lemma get_all_tools_spec (st : state) :
  active_known st ->
  exists a st',
    get_all_tools st = (Ok a, st')
    /\ clients (self st') = clients (self st)
    /\ active_known st'.
Proof.
  intros Hinv. unfold get_all_tools. unfold bind at 1. unfold get at 1.
  unfold bind at 1.
  destruct (tools_loop_spec (clients (self st)) [] st) as (a & st1 & -> & Hc & _ & Hinv1);
    [auto|exact Hinv|].
  eff_unfold. proj_simpl. eexists _, _. split; [reflexivity|].
  proj_simpl. split; [exact Hc|]. exact Hinv1.
Qed.

(** ** health_check *)

Lemma health_turn_spec (i : nat) (c : client) (st : state) :
  exists st1,
    health_turn i c st = (Ok (probe c (world st)).1, st1)
    /\ self st1 = self st
    /\ world st1 = (probe c (world st)).2.
Proof.
  unfold health_turn, with_, enter, exit_, list_tools, probe.
  eff_unfold. proj_simpl.
  destruct (client_enter c (world st)) as [[[]|e] w1]; proj_simpl;
    [|eauto 10].
  destruct (list_tools_sync c w1) as [[ts|e] w2]; proj_simpl;
    destruct (client_exit c w2) as [[[]|e'] w3]; proj_simpl; eauto 10.
Qed.

(** The status entries written for a list of answers, from index [i] on *)
Fixpoint fill (i : nat) (bs : list bool) (status : gmap string bool)
  : gmap string bool :=
  match bs with
  | [] => status
  | b :: bs' => fill (S i) bs' (<[status_key i := b]> status)
  end.

Lemma health_loop_spec (cs : list client) :
  forall i status st,
    exists st',
      health_loop i cs status st
      = (Ok (fill i (probes cs (world st)).1 status), st')
      /\ self st' = self st
      /\ world st' = (probes cs (world st)).2.
Proof.
  induction cs as [|c cs IH]; intros i status st.
  - cbn. unfold ret. eauto 10.
  - cbn [health_loop probes]. unfold bind.
    destruct (health_turn_spec i c st) as (st1 & -> & Hs1 & Hw1).
    destruct (probe c (world st)) as [b w1]. proj_simpl.
    destruct (IH (S i) (<[status_key i := b]> status) st1)
      as (st' & -> & Hs' & Hw').
    rewrite Hw1 in *.
    destruct (probes cs w1) as [bs w2]. proj_simpl.
    exists st'. cbn [fill]. rewrite Hs', Hs1. auto.
Qed.

Lemma status_key_inj (i j : nat) : status_key i = status_key j -> i = j.
Proof.
  unfold status_key. intros H.
  apply (inj pretty). revert H.
  generalize (pretty i) (pretty j). intros a b H.
  vm_compute in H. congruence.
Qed.

Lemma fill_lookup (bs : list bool) :
  forall i status j,
    fill i bs status !! status_key j =
    if bool_decide (i <= j < i + length bs)%nat then bs !! (j - i)%nat
    else status !! status_key j.
Proof.
  induction bs as [|b bs IH]; intros i status j; cbn [fill length].
  - rewrite bool_decide_eq_false_2 by lia. reflexivity.
  - rewrite IH. destruct (decide (j = i)) as [->|Hne].
    + rewrite bool_decide_eq_false_2 by lia.
      rewrite bool_decide_eq_true_2 by lia.
      rewrite Nat.sub_diag. cbn. apply lookup_insert_eq.
    + rewrite lookup_insert_ne
        by (intros Hk; apply status_key_inj in Hk; congruence).
      destruct (decide (S i <= j < S i + length bs)%nat) as [Hin|Hout].
      * rewrite !bool_decide_eq_true_2 by lia.
        replace (j - i)%nat with (S (j - S i)) by lia. reflexivity.
      * rewrite !bool_decide_eq_false_2 by lia. reflexivity.
Qed.

Lemma fill_keys (bs : list bool) :
  forall i status k,
    is_Some (fill i bs status !! k) ->
    is_Some (status !! k)
    \/ exists j, (i <= j < i + length bs)%nat /\ k = status_key j.
Proof.
  induction bs as [|b bs IH]; intros i status k H; cbn [fill length] in *.
  - left. exact H.
  - apply IH in H as [H|(j & Hj & ->)].
    + destruct (decide (k = status_key i)) as [->|Hne].
      * right. exists i. split; [lia|reflexivity].
      * rewrite lookup_insert_ne in H by congruence. left. exact H.
    + right. exists j. split; [lia|reflexivity].
Qed.

Lemma probes_length (cs : list client) :
  forall w, length (probes cs w).1 = length cs.
Proof.
  induction cs as [|c cs IH]; intros w; cbn [probes]; [reflexivity|].
  destruct (probe c w) as [b w1]. specialize (IH w1).
  destruct (probes cs w1) as [bs w2]. cbn in *. lia.
Qed.

(** C6: [health_check] returns (it does not raise) a mapping with one
    entry per known connection, keyed by its index, and no other entry;
    the entry of a connection is true exactly when its own
    open-list-release cycle went through, so a failing probe makes only
    its own entry false; the known list, the active list and the tool
    cache of the manager are what they were before. *)
Theorem health_check_probes_each_connection (st : state) :
  let cs := clients (self st) in
  let answers := (probes cs (world st)).1 in
  exists status st',
    health_check st = (Ok status, st')
    /\ (forall i c, cs !! i = Some c ->
          exists b, status !! status_key i = Some b /\ answers !! i = Some b)
    /\ (forall k, is_Some (status !! k) ->
          exists i, (i < length cs)%nat /\ k = status_key i)
    /\ clients (self st') = clients (self st)
    /\ _active_clients (self st') = _active_clients (self st)
    /\ tools (self st') = tools (self st)
    /\ world st' = (probes cs (world st)).2.
Proof.
  cbn zeta. unfold health_check. unfold bind, get.
  destruct (health_loop_spec (clients (self st)) 0 ∅ st) as (st' & -> & Hs & Hw).
  eexists _, st'. split; [reflexivity|].
  pose proof (probes_length (clients (self st)) (world st)) as Hlen.
  split; [|split].
  - intros i c Hi. apply lookup_lt_Some in Hi.
    rewrite fill_lookup. rewrite bool_decide_eq_true_2 by lia.
    rewrite Nat.sub_0_r.
    destruct ((probes (clients (self st)) (world st)).1 !! i) as [b|] eqn:Hb.
    + exists b. auto.
    + apply lookup_ge_None in Hb. lia.
  - intros k Hk. apply fill_keys in Hk as [Hk|(j & Hj & ->)].
    + rewrite lookup_empty in Hk. destruct Hk as [? Hk]. discriminate.
    + exists j. split; [lia|reflexivity].
  - rewrite Hs. auto.
Qed.

(** ** Runs of operations *)

(** The restriction under which the invariant is kept: [initialize_clients]
    is applied only while no connection is active. *)
Definition guard (o : op) (st : state) : Prop :=
  match o with
  | InitializeClients _ => _active_clients (self st) = []
  | _ => True
  end.

Fixpoint guarded (ops : list op) (st : state) : Prop :=
  match ops with
  | [] => True
  | o :: ops' => guard o st /\ guarded ops' (step st o)
  end.

Lemma step_keeps_active_known (o : op) (st : state) :
  guard o st -> active_known st -> active_known (step st o).
Proof.
  intros Hg Hinv. unfold step, active_known. destruct o as [cfgs| | |]; cbn [run_op].
  - unfold bind.
    destruct (initialize_clients cfgs st) as [r st'] eqn:Hi.
    apply initialize_clients_frame in Hi as (_ & Ha & _ & _).
    cbn in Hg.
    destruct r; unfold ret; cbn [snd]; rewrite Ha, Hg; intros c Hc; inversion Hc.
  - unfold bind.
    destruct (get_all_tools_spec st Hinv) as (a & st' & -> & _ & Hinv').
    unfold ret. cbn [snd]. exact Hinv'.
  - unfold bind. unfold health_check. unfold bind, get.
    destruct (health_loop_spec (clients (self st)) 0 ∅ st) as (st' & -> & Hs & _).
    unfold ret. cbn [snd]. rewrite Hs. exact Hinv.
  - destruct (cleanup_spec st) as (st' & -> & Hs & _).
    cbn [snd]. rewrite Hs. cbn. intros c Hc. inversion Hc.
Qed.

(** C4, amended: in every run of operations in which [initialize_clients]
    is applied only while no connection is active, the active connections
    are among the known ones after each operation. *)
Theorem active_known_after_guarded_run (ops : list op) :
  forall st,
    active_known st -> guarded ops st ->
    Forall active_known (states_after ops st).
Proof.
  induction ops as [|o ops IH]; intros st Hinv Hg; cbn [states_after].
  - constructor.
  - destruct Hg as [Hg Hrest].
    pose proof (step_keeps_active_known o st Hg Hinv) as Hinv'.
    constructor; [exact Hinv'|]. apply IH; assumption.
Qed.


(** ** What [get_all_tools] opens *)

Ltac conj_split := repeat match goal with |- _ /\ _ => split end.

Ltac call_in H :=
  repeat (apply elem_of_cons in H as [H|H];
          [first [discriminate H | injection H as H; subst | subst]|]);
  try (apply elem_of_nil in H; destruct H).

Lemma tools_turn_trace (c : client) (acc : list Tool) (st : state) :
  exists a st1 new cl,
    tools_turn c acc st = (Ok a, st1)
    /\ clients (self st1) = clients (self st)
    /\ tools (self st1) = tools (self st)
    /\ next_client st1 = next_client st
    /\ _active_clients (self st1) = _active_clients (self st) ++ new
    /\ calls st1 = calls st ++ cl
    /\ (new = [] \/ (new = [c] /\ (c ∉ _active_clients (self st))))
    /\ (forall x, CallEnter x ∈ cl ->
          x = c /\ (c ∉ _active_clients (self st)))
    /\ (forall x, CallExit x ∉ cl)
    /\ (forall x, x ∈ new -> CallEnter x ∈ cl)
    /\ (forall x, CallListTools x ∈ cl -> x = c)
    /\ (CallListTools c ∈ cl -> c ∈ _active_clients (self st1)).
Proof.
  unfold tools_turn, enter, list_tools. eff_unfold. proj_simpl.
  destruct (bool_decide (c ∈ _active_clients (self st))) eqn:Hin.
  - apply bool_decide_eq_true in Hin. proj_simpl.
    destruct (list_tools_sync c (world st)) as [[[|t ts]|e] w2]; proj_simpl;
      eexists _, _, [], [CallListTools c];
      (split; [reflexivity|]); proj_simpl; rewrite ?app_nil_r;
      conj_split; try reflexivity; try (left; reflexivity);
      try (intros x H; call_in H; fail);
      try (intros x H; call_in H; reflexivity);
      try (intros; exact Hin).
  - apply bool_decide_eq_false in Hin. proj_simpl.
    destruct (client_enter c (world st)) as [[[]|e] w1]; proj_simpl.
    + destruct (list_tools_sync c w1) as [[[|t ts]|e] w2]; proj_simpl;
        eexists _, _, [c], [CallEnter c; CallListTools c];
        (split; [reflexivity|]); proj_simpl; rewrite <- ?app_assoc;
        conj_split; try reflexivity; try (right; split; [reflexivity|exact Hin]);
        try (intros x H; call_in H; fail);
        try (intros x H; call_in H; reflexivity);
        try (intros x H; call_in H; split; [reflexivity|exact Hin]);
        try (intros x H; call_in H; left);
        try (intros; apply elem_of_app; right; left).
    + eexists _, _, [], [CallEnter c].
      split; [reflexivity|]. proj_simpl. rewrite ?app_nil_r.
      conj_split; try reflexivity; try (left; reflexivity);
        try (intros x H; call_in H; fail);
        try (intros x H; call_in H; split; [reflexivity|exact Hin]).
      intros H. call_in H.
Qed.

Lemma tools_loop_trace (cs : list client) :
  forall acc st,
    exists a st' new cl,
      tools_loop cs acc st = (Ok a, st')
      /\ clients (self st') = clients (self st)
      /\ tools (self st') = tools (self st)
      /\ _active_clients (self st') = _active_clients (self st) ++ new
      /\ calls st' = calls st ++ cl
      /\ NoDup new
      /\ (forall x, x ∈ new ->
            x ∈ cs /\ (x ∉ _active_clients (self st)) /\ CallEnter x ∈ cl)
      /\ (forall x, CallEnter x ∈ cl ->
            x ∈ cs /\ (x ∉ _active_clients (self st)))
      /\ (forall x, CallExit x ∉ cl)
      /\ (forall x, CallListTools x ∈ cl ->
            x ∈ cs /\ x ∈ _active_clients (self st')).
Proof.
  induction cs as [|c cs IH]; intros acc st.
  - cbn [tools_loop]. unfold ret. exists acc, st, [], [].
    rewrite !app_nil_r. conj_split; try reflexivity;
      [apply NoDup_nil_2| | | |]; intros x H; inversion H.
  - cbn [tools_loop]. unfold bind.
    destruct (tools_turn_trace c acc st)
      as (a1 & st1 & new1 & cl1 & -> & Hc1 & Ht1 & _ & Ha1 & Hl1 & Hn1
          & He1 & Hx1 & Hne1 & Hlt1 & Hact1).
    destruct (IH a1 st1)
      as (a & st' & new2 & cl2 & -> & Hc2 & Ht2 & Ha2 & Hl2 & Hnd2 & Hn2
          & He2 & Hx2 & Hlt2).
    exists a, st', (new1 ++ new2), (cl1 ++ cl2).
    split; [reflexivity|].
    split; [congruence|]. split; [congruence|].
    split; [rewrite Ha2, Ha1, app_assoc; reflexivity|].
    split; [rewrite Hl2, Hl1, app_assoc; reflexivity|].
    split; [|split; [|split; [|split]]].
    + apply NoDup_app. split; [|split; [|exact Hnd2]].
      * destruct Hn1 as [->|[-> _]]; [constructor|apply NoDup_singleton].
      * intros x Hx1' Hx2'. apply Hn2 in Hx2' as (_ & Hnot & _).
        apply Hnot. rewrite Ha1. apply elem_of_app. right. exact Hx1'.
    + intros x Hx. apply elem_of_app in Hx as [Hx|Hx].
      * pose proof (Hne1 x Hx) as Hen.
        destruct Hn1 as [->|[-> Hnot]]; [inversion Hx|].
        apply list_elem_of_singleton in Hx. subst x.
        split; [left|]. split; [exact Hnot|]. apply elem_of_app. left. exact Hen.
      * apply Hn2 in Hx as (Hcs & Hnot & Hen).
        split; [right; exact Hcs|]. split.
        -- intros H. apply Hnot. rewrite Ha1. apply elem_of_app. left. exact H.
        -- apply elem_of_app. right. exact Hen.
    + intros x Hx. apply elem_of_app in Hx as [Hx|Hx].
      * apply He1 in Hx as [-> Hnot]. split; [left|exact Hnot].
      * apply He2 in Hx as [Hcs Hnot]. split; [right; exact Hcs|].
        intros H. apply Hnot. rewrite Ha1. apply elem_of_app. left. exact H.
    + intros x Hx. apply elem_of_app in Hx as [Hx|Hx].
      * exact (Hx1 x Hx).
      * exact (Hx2 x Hx).
    + intros x Hx. apply elem_of_app in Hx as [Hx|Hx].
      * pose proof (Hlt1 x Hx). subst x. split; [left|].
        rewrite Ha2. apply elem_of_app. left. apply Hact1. exact Hx.
      * apply Hlt2 in Hx as [Hcs Hact]. split; [right; exact Hcs|exact Hact].
Qed.

Lemma get_all_tools_appends (st : state) :
  exists a st' new,
    get_all_tools st = (Ok a, st')
    /\ _active_clients (self st') = _active_clients (self st) ++ new
    /\ NoDup new
    /\ (forall x, x ∈ new -> x ∉ _active_clients (self st)).
Proof.
  unfold get_all_tools. unfold bind at 1. unfold get at 1. unfold bind at 1.
  destruct (tools_loop_trace (clients (self st)) [] st)
    as (a & st1 & new & cl & -> & _ & _ & Ha & _ & Hnd & Hn & _).
  eff_unfold. proj_simpl. exists a. eexists. exists new.
  split; [reflexivity|]. proj_simpl.
  split; [exact Ha|]. split; [exact Hnd|].
  intros x Hx. apply (Hn x Hx).
Qed.

(** X6: [get_all_tools] returns on every state; the list it returns is the
    one it stores in [self.tools], and [self.clients] is left alone.  It
    calls [__enter__] only on known connections that are not already
    active, each at most once, never [__exit__], and [list_tools_sync] only
    on connections that are active when it is done; the connections it has
    opened are appended to the active ones, none twice. *)
Theorem get_all_tools_opens_only_inactive_connections (st : state) :
  exists a st' new cl,
    get_all_tools st = (Ok a, st')
    /\ tools (self st') = a
    /\ clients (self st') = clients (self st)
    /\ _active_clients (self st') = _active_clients (self st) ++ new
    /\ calls st' = calls st ++ cl
    /\ NoDup new
    /\ (forall x, x ∈ new ->
          x ∈ clients (self st) /\ (x ∉ _active_clients (self st))
          /\ CallEnter x ∈ cl)
    /\ (forall x, CallEnter x ∈ cl ->
          x ∈ clients (self st) /\ (x ∉ _active_clients (self st)))
    /\ (forall x, CallExit x ∉ cl)
    /\ (forall x, CallListTools x ∈ cl ->
          x ∈ clients (self st) /\ x ∈ _active_clients (self st')).
Proof.
  unfold get_all_tools. unfold bind at 1. unfold get at 1. unfold bind at 1.
  destruct (tools_loop_trace (clients (self st)) [] st)
    as (a & st1 & new & cl & -> & Hc & Ht & Ha & Hl & Hnd & Hn & He & Hx & Hlt).
  eff_unfold. proj_simpl. exists a. eexists. exists new, cl.
  split; [reflexivity|]. proj_simpl.
  conj_split; auto.
Qed.

(** ** No connection is active twice *)

Definition active_once (st : state) : Prop := NoDup (_active_clients (self st)).

Lemma step_keeps_active_once (o : op) (st : state) :
  active_once st -> active_once (step st o).
Proof.
  intros Hinv. unfold step, active_once in *.
  destruct o as [cfgs| | |]; cbn [run_op].
  - unfold bind.
    destruct (initialize_clients cfgs st) as [r st'] eqn:Hi.
    apply initialize_clients_frame in Hi as (_ & Ha & _ & _).
    destruct r; unfold ret; cbn [snd]; rewrite Ha; exact Hinv.
  - unfold bind.
    destruct (get_all_tools_appends st)
      as (a & st' & new & -> & Ha & Hnd & Hn).
    unfold ret. cbn [snd]. rewrite Ha. apply NoDup_app.
    split; [exact Hinv|]. split; [|exact Hnd].
    intros x Hx Hx'. exact (Hn x Hx' Hx).
  - unfold bind. unfold health_check. unfold bind, get.
    destruct (health_loop_spec (clients (self st)) 0 ∅ st) as (st' & -> & Hs & _).
    unfold ret. cbn [snd]. rewrite Hs. exact Hinv.
  - destruct (cleanup_spec st) as (st' & -> & Hs & _).
    cbn [snd]. rewrite Hs. cbn. constructor.
Qed.

Lemma run_keeps_active_once (ops : list op) :
  forall st, active_once st -> Forall active_once (states_after ops st).
Proof.
  induction ops as [|o ops IH]; intros st Hinv; cbn [states_after].
  - constructor.
  - pose proof (step_keeps_active_once o st Hinv) as H1.
    constructor; [exact H1|]. apply IH. exact H1.
Qed.

(** X7: on a manager made by [__init__], whatever operations are applied
    and in whatever order, no connection is ever listed twice among the
    active ones; so [cleanup], which calls [__exit__] once per entry of
    that list, releases no connection twice. *)
Theorem active_connections_are_listed_once (ops : list op)
    (w : World) (lg : list log_record) (n : nat) (cl : list call) :
  Forall (fun st =>
            NoDup (_active_clients (self st))
            /\ exists st',
                 cleanup st = (Ok tt, st')
                 /\ calls st' = calls st ++ map CallExit (_active_clients (self st))
                 /\ NoDup (map CallExit (_active_clients (self st))))
         (states_after ops (State init w lg n cl)).
Proof.
  assert (H0 : active_once (State init w lg n cl)) by (cbn; constructor).
  pose proof (run_keeps_active_once ops _ H0) as H.
  eapply Forall_impl; [exact H|]. intros st Hst. cbv beta.
  split; [exact Hst|].
  destruct (cleanup_spec st) as (st' & Hc & _ & _ & Hcalls).
  exists st'. split; [exact Hc|]. split; [exact Hcalls|].
  apply NoDup_fmap_2; [|exact Hst]. intros x y [= ->]. reflexivity.
Qed.


(** ** What [health_check] opens and closes *)

Definition entered (c : call) : option client :=
  match c with CallEnter x => Some x | _ => None end.

Lemma health_turn_trace (i : nat) (c : client) (st : state) :
  exists st1 cl,
    health_turn i c st = (Ok (probe c (world st)).1, st1)
    /\ self st1 = self st
    /\ world st1 = (probe c (world st)).2
    /\ calls st1 = calls st ++ cl
    /\ omap entered cl = [c]
    /\ (forall x, CallExit x ∈ cl -> x = c)
    /\ ((probe c (world st)).1 = true ->
        CallListTools c ∈ cl /\ CallExit c ∈ cl).
Proof.
  unfold health_turn, with_, enter, exit_, list_tools, probe.
  eff_unfold. proj_simpl.
  destruct (client_enter c (world st)) as [[[]|e] w1]; proj_simpl.
  - destruct (list_tools_sync c w1) as [[ts|e] w2]; proj_simpl;
      destruct (client_exit c w2) as [[[]|e'] w3]; proj_simpl;
      eexists _, [CallEnter c; CallListTools c; CallExit c];
      (split; [reflexivity|]); proj_simpl; rewrite <- ?app_assoc;
      conj_split; try reflexivity;
      try (intros x H; call_in H; reflexivity);
      try (intros H; discriminate H);
      try (intros _; split; [right; left|right; right; left]).
  - eexists _, [CallEnter c]. split; [reflexivity|]. proj_simpl.
    conj_split; try reflexivity; try (intros H; discriminate H).
    intros x H. call_in H.
Qed.

Lemma health_loop_trace (cs : list client) :
  forall i status st,
    exists st' cl,
      health_loop i cs status st
      = (Ok (fill i (probes cs (world st)).1 status), st')
      /\ self st' = self st
      /\ calls st' = calls st ++ cl
      /\ omap entered cl = cs
      /\ (forall x, CallExit x ∈ cl -> x ∈ cs)
      /\ (forall j c, cs !! j = Some c ->
            (probes cs (world st)).1 !! j = Some true ->
            CallListTools c ∈ cl /\ CallExit c ∈ cl).
Proof.
  induction cs as [|c cs IH]; intros i status st.
  - cbn [health_loop probes fill]. unfold ret. exists st, [].
    rewrite app_nil_r. conj_split; try reflexivity.
    + intros x H. inversion H.
    + intros j c H. rewrite lookup_nil in H. discriminate.
  - cbn [health_loop probes]. unfold bind.
    destruct (health_turn_trace i c st)
      as (st1 & cl1 & -> & Hs1 & Hw1 & Hl1 & He1 & Hx1 & Hok1).
    destruct (probe c (world st)) as [b w1]. proj_simpl.
    destruct (IH (S i) (<[status_key i := b]> status) st1)
      as (st' & cl2 & -> & Hs' & Hl' & He' & Hx' & Hok').
    rewrite Hw1 in *.
    destruct (probes cs w1) as [bs w2]. proj_simpl.
    exists st', (cl1 ++ cl2). cbn [fill].
    split; [reflexivity|]. split; [congruence|].
    split; [rewrite Hl', Hl1, app_assoc; reflexivity|].
    split; [rewrite omap_app, He1, He'; reflexivity|].
    split.
    + intros x H. apply elem_of_app in H as [H|H].
      * apply Hx1 in H. subst x. left.
      * right. apply Hx'. exact H.
    + intros j x Hj Hb. destruct j as [|j]; cbn in Hj, Hb.
      * injection Hj as <-. injection Hb as ->.
        destruct (Hok1 eq_refl) as [A1 A2].
        split; apply elem_of_app; left; assumption.
      * destruct (Hok' j x Hj Hb) as [A1 A2].
        split; apply elem_of_app; right; assumption.
Qed.

(** X8: [health_check] calls [__enter__] on every known connection, once
    each and in the order of the list, also on a connection that
    [get_all_tools] already holds open; a connection it reports healthy
    has had [list_tools_sync] and [__exit__] called on it, and [__exit__]
    is called on known connections only; the list of active connections is
    what it was, so a healthy active connection is still listed after the
    check has called [__exit__] on it. *)
Theorem health_check_enters_and_exits_every_connection (st : state) :
  exists status st' cl,
    health_check st = (Ok status, st')
    /\ calls st' = calls st ++ cl
    /\ omap entered cl = clients (self st)
    /\ (forall x, CallExit x ∈ cl -> x ∈ clients (self st))
    /\ (forall i c, clients (self st) !! i = Some c ->
          status !! status_key i = Some true ->
          CallListTools c ∈ cl /\ CallExit c ∈ cl)
    /\ _active_clients (self st') = _active_clients (self st)
    /\ (forall i c, clients (self st) !! i = Some c ->
          status !! status_key i = Some true ->
          c ∈ _active_clients (self st) ->
          CallExit c ∈ cl /\ c ∈ _active_clients (self st')).
Proof.
  unfold health_check. unfold bind, get.
  destruct (health_loop_trace (clients (self st)) 0 ∅ st)
    as (st' & cl & -> & Hs & Hl & He & Hx & Hok).
  eexists _, st', cl. split; [reflexivity|].
  assert (Hst : forall i c, clients (self st) !! i = Some c ->
                  fill 0 (probes (clients (self st)) (world st)).1 ∅
                    !! status_key i = Some true ->
                  CallListTools c ∈ cl /\ CallExit c ∈ cl).
  { intros i c Hi Hb. apply (Hok i c Hi).
    pose proof (probes_length (clients (self st)) (world st)) as Hlen.
    pose proof (lookup_lt_Some _ _ _ Hi) as Hlt.
    rewrite fill_lookup in Hb. rewrite bool_decide_eq_true_2 in Hb by lia.
    rewrite Nat.sub_0_r in Hb. exact Hb. }
  split; [exact Hl|]. split; [exact He|]. split; [exact Hx|].
  split; [exact Hst|]. split; [rewrite Hs; reflexivity|].
  intros i c Hi Hb Hact. split; [apply (Hst i c Hi Hb)|].
  rewrite Hs. exact Hact.
Qed.


(** ** Missing keys *)

(** X9: [_create_client] never raises and touches neither the manager nor
    any connection.  A configuration without a [command] gives [None] and
    one ERROR record with the text of the [KeyError], without the
    constructor being reached and without an identity being used up;
    [None] is returned exactly when one ERROR record is written; a client
    that is returned is a new object, and nothing is logged for it. *)
Theorem create_client_reports_failure_as_none (cfg : config) (st : state) :
  exists r st',
    _create_client cfg st = (Ok r, st')
    /\ self st' = self st /\ calls st' = calls st
    /\ (cfg !! "command"%string = None ->
        r = None /\ world st' = world st /\ next_client st' = next_client st
        /\ logs st' = logs st ++ [LogRecord ERROR
                                    (u "创建 MCP 客户端失败: " ++ u "'command'")])
    /\ (r = None <->
        exists e, logs st' = logs st ++ [LogRecord ERROR
                                           (u "创建 MCP 客户端失败: " ++ exn_text e)])
    /\ (forall c, r = Some c ->
          c = next_client st /\ next_client st' = S c /\ logs st' = logs st
          /\ is_Some (cfg !! "command"%string)).
Proof.
  rewrite create_client_spec. unfold attempt.
  destruct (cfg !! "command"%string) as [command|] eqn:Hc.
  - destruct (new_client command _ _ (world st)) as [[[]|e] w].
    + eexists _, _. split; [reflexivity|]. proj_simpl.
      split; [reflexivity|]. split; [reflexivity|].
      split; [discriminate|]. split; [split|].
      * discriminate.
      * intros [e H]. apply (f_equal length) in H.
        rewrite length_app in H. cbn [length] in H. lia.
      * intros c [= <-]. eauto.
    + eexists _, _. split; [reflexivity|]. proj_simpl.
      split; [reflexivity|]. split; [reflexivity|].
      split; [discriminate|]. split; [split; eauto|].
      discriminate.
  - eexists _, _. split; [reflexivity|]. proj_simpl.
    split; [reflexivity|]. split; [reflexivity|].
    split; [intros _|split; [split; eauto|discriminate]].
    repeat split.
Qed.



End Props.

(** ** Concrete runs *)

(** A world where every server answers: clients are built, open, list one
    tool (their own number) and close. *)
Definition always_ok : Backend := {|
  World := unit;
  Tool := nat;
  new_client := fun _ _ _ w => (Ok tt, w);
  client_enter := fun _ w => (Ok tt, w);
  client_exit := fun _ w => (Ok tt, w);
  list_tools_sync := fun c w => (Ok [c], w)
|}.

Definition cfg0 : config :=
  <["name"%string := VStr (u "logs")]>
    (<["command"%string := VStr (u "uvx")]> ∅).

Definition fresh : @state always_ok := @State always_ok (@init always_ok) tt [] 0%nat [] .

(** C4 as stated fails: after [initialize_clients], [get_all_tools] and a
    second [initialize_clients] (here with no configuration), connection 0
    is still active and no longer known. *)
Lemma reinitialize_breaks_active_known :
  ~ Forall (@active_known always_ok)
      (states_after [InitializeClients [cfg0]; GetAllTools; InitializeClients []]
                    fresh).
Proof.
  intros H. cbn [states_after] in H.
  apply Forall_cons in H as [_ H]. apply Forall_cons in H as [_ H].
  apply Forall_cons in H as [H _].
  specialize (H 0%nat).
  assert (Ha : _active_clients
                 (self (step (step (step fresh (InitializeClients [cfg0])) GetAllTools)
                             (InitializeClients []))) = [0%nat])
    by (vm_compute; reflexivity).
  assert (Hc : clients
                 (self (step (step (step fresh (InitializeClients [cfg0])) GetAllTools)
                             (InitializeClients []))) = [])
    by (vm_compute; reflexivity).
  rewrite Ha, Hc in H. specialize (H ltac:(left)). inversion H.
Qed.

(** A guarded run, for C4 as amended: initialise, aggregate, check, clean
    up, and initialise and aggregate again. *)
Lemma active_known_witness :
  let ops := [InitializeClients [cfg0]; GetAllTools; HealthCheck; Cleanup;
              InitializeClients [cfg0]; GetAllTools] in
  active_known fresh /\ guarded ops fresh
  /\ Forall active_known (states_after ops fresh).
Proof.
  assert (H0 : active_known fresh) by (intros c Hc; inversion Hc).
  assert (Hg : guarded [InitializeClients [cfg0]; GetAllTools; HealthCheck;
                        Cleanup; InitializeClients [cfg0]; GetAllTools] fresh)
    by (vm_compute; repeat split; reflexivity).
  split; [exact H0|]. split; [exact Hg|].
  exact (active_known_after_guarded_run _ fresh H0 Hg).
Defined.




End MCPManagerProps.

(* ===================================================================== *)
(** * Properties of log_analyzer_agent.py                                 *)
(* ===================================================================== *)

Module LogAnalyzerAgentProps.
Import Py Eff LogAnalyzerAgent.
Local Open Scope eff_scope.

Section AgentProps.
Context {B : Backend}.

(** C7: on an initialised agent, whatever exception the agent call raises,
    [analyze_query] returns (it does not raise) one of four bodies: the
    timeout advice, the connection advice, the permission advice, or the
    generic body holding the text of the exception as it is; the choice is
    by the first of the keywords timeout, connection, permission or auth
    found in the lower-cased text of the exception. *)
Theorem analyze_query_maps_errors (query : str) (st : state) (e : exn)
    (w' : World) :
  agent st = true ->
  agent_call (_preprocess_query query) (world st) = (Raise e, w') ->
  exists st' body,
    analyze_query query st = (Ok body, st')
    /\ body = _format_error_response (exn_text e)
    /\ let msg := lower (exn_text e) in
       (contains (u "timeout") msg = true /\ body = TIMEOUT_ADVICE)
       \/ (contains (u "timeout") msg = false
           /\ contains (u "connection") msg = true
           /\ body = CONNECTION_ADVICE)
       \/ (contains (u "timeout") msg = false
           /\ contains (u "connection") msg = false
           /\ (contains (u "permission") msg = true
               \/ contains (u "auth") msg = true)
           /\ body = PERMISSION_ADVICE)
       \/ (contains (u "timeout") msg = false
           /\ contains (u "connection") msg = false
           /\ contains (u "permission") msg = false
           /\ contains (u "auth") msg = false
           /\ body = GENERIC_HEAD ++ exn_text e ++ GENERIC_TAIL).
Proof.
  intros Hagent Hcall.
  unfold analyze_query, call_agent, log.
  unfold bind, try_except, ret, raise, get, modify. cbv beta iota.
  rewrite Hagent. cbn [negb world agent logs]. rewrite Hcall.
  eexists _, _. split; [reflexivity|]. split; [reflexivity|].
  cbv zeta. unfold _format_error_response.
  destruct (contains (u "timeout") (lower (exn_text e))); [left; auto|].
  destruct (contains (u "connection") (lower (exn_text e)));
    [right; left; auto|].
  destruct (contains (u "permission") (lower (exn_text e))) eqn:Hp;
    [right; right; left; cbn [orb]; auto|].
  destruct (contains (u "auth") (lower (exn_text e))) eqn:Ha;
    [right; right; left; cbn [orb]; auto|].
  right; right; right. cbn [orb]. auto 10.
Qed.

End AgentProps.

(** An agent whose every call fails with the same exception *)
Definition failing_agent (msg : str) : Backend := {|
  World := unit;
  agent_call := fun _ w => (Raise (Exn ExceptionK msg), w);
  lower := ascii_lower
|}.

#[local] Instance refused : Backend :=
  failing_agent (u "Connection refused by host").

(** A run of C7: a refused connection gives the connection advice. *)
Lemma analyze_query_witness :
  let st := State true tt [] in
  agent st = true
  /\ agent_call (_preprocess_query (u "errors today")) (world st)
     = (Raise (Exn ExceptionK (u "Connection refused by host")), tt)
  /\ exists st', analyze_query (u "errors today") st
                 = (Ok CONNECTION_ADVICE, st').
Proof.
  cbv zeta.
  assert (H1 : agent (State true tt []) = true) by reflexivity.
  assert (H2 : agent_call (_preprocess_query (u "errors today"))
                 (world (State true tt []))
               = (Raise (Exn ExceptionK (u "Connection refused by host")), tt))
    by reflexivity.
  split; [exact H1|]. split; [exact H2|].
  destruct (analyze_query_maps_errors (u "errors today") _ _ _ H1 H2)
    as (st' & body & Hr & Hb & _).
  exists st'. rewrite Hr. f_equal. f_equal. rewrite Hb.
  vm_compute. reflexivity.
Defined.

End LogAnalyzerAgentProps.

(* ===================================================================== *)
(** * Facts about strings                                                 *)
(* ===================================================================== *)

Module StrProps.
Import Py.

(** The number of newlines a text starts with *)
Fixpoint nlrun (s : str) : nat :=
  match s with
  | c :: r => if c =? NL then S (nlrun r) else O
  | [] => O
  end.

(** Does not start with white space / does not end with white space *)
Definition head_ok (s : str) : Prop :=
  match s with
  | [] => True
  | c :: _ => is_space c = false
  end.
Definition last_ok (s : str) : Prop := head_ok (rev s).

Ltac bool_dec :=
  first [ apply bool_decide_eq_true_2; lia
        | apply bool_decide_eq_false_2; lia ].

Lemma startswith_nl2 (s : str) :
  startswith nl2 s = bool_decide (2 <= nlrun s)%nat.
Proof.
  destruct s as [|a [|b s]]; cbn [startswith nl2 nlrun];
    rewrite ?(N.eqb_sym NL); symmetry.
  - bool_dec.
  - destruct (a =? NL); cbn [andb]; bool_dec.
  - destruct (a =? NL); [|cbn [andb]; bool_dec].
    destruct (b =? NL); cbn [andb]; bool_dec.
Qed.

Lemma contains_nl3_cons (c : char) (s : str) :
  contains nl3 (c :: s)
  = ((c =? NL) && bool_decide (2 <= nlrun s)%nat) || contains nl3 s.
Proof.
  cbn [contains]. f_equal. change nl3 with (NL :: nl2).
  cbn [startswith]. rewrite startswith_nl2, (N.eqb_sym NL c). reflexivity.
Qed.

Lemma contains_nl3_nil : contains nl3 [] = false.
Proof. reflexivity. Qed.



(** A text that starts with something else than a newline can follow any
    text free of triple newlines. *)
Lemma nlrun_app_nonl (a b : str) :
  nlrun b = O -> b <> [] -> (nlrun (a ++ b) <= nlrun a)%nat.
Proof.
  intros Hb Hne. induction a as [|c a IH]; cbn [nlrun app]; [lia|].
  destruct (c =? NL); lia.
Qed.

Lemma nonl3_app_intro (a b : str) :
  contains nl3 a = false -> contains nl3 b = false ->
  nlrun b = O -> b <> [] ->
  contains nl3 (a ++ b) = false.
Proof.
  intros Ha Hb Hr Hne. induction a as [|c a IH]; cbn [app]; [exact Hb|].
  rewrite contains_nl3_cons in Ha |- *.
  apply orb_false_elim in Ha as [H1 H2]. rewrite (IH H2), orb_false_r.
  destruct (c =? NL); [|reflexivity]. cbn [andb] in *.
  apply bool_decide_eq_false in H1. apply bool_decide_eq_false_2.
  pose proof (nlrun_app_nonl a b Hr Hne). lia.
Qed.

(** ** The loop that collapses newlines *)





(** ** strip *)

Lemma lstrip_suffix (s : str) : exists a, s = a ++ lstrip s.
Proof.
  induction s as [|c s [a IH]]; [exists []; reflexivity|].
  cbn [lstrip]. destruct (is_space c).
  - exists (c :: a). cbn [app]. f_equal. exact IH.
  - exists []. reflexivity.
Qed.

Lemma lstrip_head_ok (s : str) : head_ok (lstrip s).
Proof.
  induction s as [|c s IH]; [exact I|].
  cbn [lstrip]. destruct (is_space c) eqn:Hc; [exact IH|exact Hc].
Qed.

Lemma rstrip_prefix (s : str) : exists b, s = rstrip s ++ b.
Proof.
  unfold rstrip. destruct (lstrip_suffix (rev s)) as [a Ha].
  exists (rev a). rewrite <- rev_app_distr, <- Ha, rev_involutive. reflexivity.
Qed.

Lemma rstrip_last_ok (s : str) : last_ok (rstrip s).
Proof.
  unfold last_ok, rstrip. rewrite rev_involutive. apply lstrip_head_ok.
Qed.

Lemma head_ok_prefix (a b : str) : head_ok (a ++ b) -> head_ok a.
Proof. destruct a; [intros; exact I|cbn; auto]. Qed.

Lemma strip_head_ok (s : str) : head_ok (strip s).
Proof.
  unfold strip. destruct (rstrip_prefix (lstrip s)) as [b Hb].
  apply (head_ok_prefix _ b). rewrite <- Hb. apply lstrip_head_ok.
Qed.

Lemma strip_last_ok (s : str) : last_ok (strip s).
Proof. unfold strip. apply rstrip_last_ok. Qed.


(** A text that neither starts nor ends with white space is its own
    [strip()]. *)
Lemma lstrip_id (s : str) : head_ok s -> lstrip s = s.
Proof. destruct s as [|c s]; cbn; [reflexivity|]. intros ->. reflexivity. Qed.

Lemma strip_id (s : str) : head_ok s -> last_ok s -> strip s = s.
Proof.
  intros Hh Hl. unfold strip, rstrip. rewrite (lstrip_id s Hh).
  rewrite (lstrip_id (rev s) Hl). apply rev_involutive.
Qed.

(** ** Lines *)







Lemma contains_nl3_line_only (l : str) : NL ∉ l -> contains nl3 l = false.
Proof.
  induction l as [|c l IH]; intros Hl; [reflexivity|].
  rewrite contains_nl3_cons.
  destruct (N.eqb_spec c NL) as [->|_]; [exfalso; apply Hl; left|].
  cbn [andb orb]. apply IH. intros H. apply Hl. right. exact H.
Qed.


(** The last character *)
Lemma last_ok_last (s : str) :
  last_ok s <-> match last s with
                | Some c => is_space c = false
                | None => True
                end.
Proof.
  unfold last_ok. destruct s as [|c s] using rev_ind; [cbn; tauto|].
  rewrite last_snoc, rev_app_distr. cbn. tauto.
Qed.



End StrProps.

(* ===================================================================== *)
(** * Facts about the matcher                                             *)
(* ===================================================================== *)

Module ReProps.
Import Py Re StrProps.







(** ** The shape of what [re.sub] returns *)






Lemma last_ok_app_r (a b : str) : b <> [] -> (last_ok (a ++ b) <-> last_ok b).
Proof.
  intros Hb. rewrite !last_ok_last, last_app.
  destruct (last b) eqn:H; [tauto|]. apply last_None in H. congruence.
Qed.




(** ** Characters *)






End ReProps.

(* ===================================================================== *)
(** * Properties of output_formatter.py                                   *)
(* ===================================================================== *)

Module OutputFormatterProps.
Import Py Re Eff OutputFormatter.
Local Open Scope eff_scope.


(** ** Error handling *)





Lemma strip_truthy (text : str) :
  truthy (strip text) = true -> truthy text = true.
Proof. destruct text; [discriminate|reflexivity]. Qed.

Section Stages.
Variable self : formatter.
Variables s2 s3 s4 : str -> M logger str.







End Stages.





(** ** Idempotence *)




Lemma colon_run_passes :
  format_result init (u ":::b") = u ": : :b"
  /\ format_result init (u ": : :b") = u ": : : b".
Proof. split; vm_compute; reflexivity. Qed.




(** ** The final stage: no triple newline, no white space at the ends *)

Import StrProps.






(** ** The replacements of [_fix_common_issues] are tidy *)

Import ReProps.


























(** ** What [_fix_common_issues] and [_final_cleanup] keep *)










(** ** [_ensure_paragraph_spacing] only adds blank lines *)









(** ** Lines that [_format_line] leaves alone *)

Lemma anchored_not_at_start (a : regex) (c : char) (must : bool) (s : str) :
  match_at (Seq Bos a) (Some c) must s = None.
Proof. reflexivity. Qed.

Lemma sub_go_anchored (a : regex) (t : template) (s : str) :
  forall c, sub_go (Seq Bos a) t 0 (Some c) s = s.
Proof.
  induction s as [|x s IH]; intros c; cbn [sub_go].
  - rewrite anchored_not_at_start. reflexivity.
  - rewrite anchored_not_at_start, IH. reflexivity.
Qed.

Lemma sub_anchored_id (a : regex) (t : template) (line : str) :
  match_at (Seq Bos a) None false line = None ->
  sub (Seq Bos a) t line = line.
Proof.
  intros H. unfold sub. destruct line as [|c s]; cbn [sub_go]; rewrite H.
  - reflexivity.
  - rewrite sub_go_anchored. reflexivity.
Qed.

(** A line that does not begin like a list item or a quotation *)
Definition plain_head (line : str) : Prop :=
  match line with
  | [] => True
  | c :: _ =>
      one_of "•-*+" c = false /\ is_digit c = false /\ one_of ">|" c = false
  end.

Lemma plain_head_no_match (line : str) :
  plain_head line ->
  match_at bullet_re None false line = None
  /\ match_at numbered_re None false line = None
  /\ match_at quote_re None false line = None.
Proof.
  intros H. unfold match_at, bullet_re, numbered_re, quote_re, Plus.
  cbn [Seqs rmatch rest at_bos before taken last].
  destruct line as [|c s]; [auto|].
  destruct H as (H1 & H2 & H3). rewrite H1, H2, H3. auto.
Qed.

(** X15: [_format_line] returns a line as it is when the line does not
    begin with a bullet sign, a digit or a quotation sign, and either has
    no colon or ends with one (a heading). *)
Theorem format_line_keeps_plain_lines (line : str) :
  plain_head line ->
  contains (u ":") line = false \/ endswith (u ":") line = true ->
  _format_line line = line.
Proof.
  intros Hp Hc. destruct (plain_head_no_match line Hp) as (H1 & H2 & H3).
  unfold _format_line. cbv zeta.
  change bullet_re with (Seq Bos (Seqs [Cls (one_of "•-*+"); Star is_space])) in *.
  rewrite (sub_anchored_id _ _ _ H1).
  change numbered_re
    with (Seq Bos (Seqs [Grp 1 (Plus is_digit); Cls (one_of ".)"); Star is_space]))
    in *.
  rewrite (sub_anchored_id _ _ _ H2).
  change quote_re with (Seq Bos (Seqs [Plus (one_of ">|"); Star is_space])) in *.
  rewrite (sub_anchored_id _ _ _ H3).
  destruct Hc as [Hc|Hc]; rewrite Hc; [reflexivity|].
  cbn [negb]. rewrite andb_false_r. reflexivity.
Qed.

(** A run of X15: a sentence, and a heading. *)
Lemma format_line_witness :
  plain_head (u "All systems nominal")
  /\ (contains (u ":") (u "All systems nominal") = false
      \/ endswith (u ":") (u "All systems nominal") = true)
  /\ _format_line (u "All systems nominal") = u "All systems nominal".
Proof.
  assert (H1 : plain_head (u "All systems nominal"))
    by (vm_compute; auto).
  assert (H2 : contains (u ":") (u "All systems nominal") = false
               \/ endswith (u ":") (u "All systems nominal") = true)
    by (left; vm_compute; reflexivity).
  split; [exact H1|]. split; [exact H2|].
  exact (format_line_keeps_plain_lines _ H1 H2).
Defined.

End OutputFormatterProps.

(* ===================================================================== *)
(** * More on log_analyzer_agent.py: the texts of the agent              *)
(* ===================================================================== *)

Module AgentTextProps.
Import Py Eff LogAnalyzerAgent StrProps ReProps.
Local Open Scope eff_scope.

Definition BLANK_NOTICE : str :=
  u "分析完成，但未生成具体结果。请尝试更具体的查询条件。".
Definition SHORT_NOTICE : str := u "分析结果过于简短，请尝试更详细的查询。".
Definition QUERY_PREFIX : str := u "请分析：".

(** A text that is trimmed and not empty: [strip] leaves it alone. *)
Definition solid (s : str) : Prop := s <> [] /\ head_ok s /\ last_ok s.

Lemma solid_strip (s : str) : solid s -> strip s = s /\ truthy (strip s) = true.
Proof.
  intros (Hne & Hh & Hl). rewrite (strip_id s Hh Hl).
  split; [reflexivity|]. destruct s; [congruence|reflexivity].
Qed.

Lemma solid_strip_of (s : str) : truthy (strip s) = true -> solid (strip s).
Proof.
  intros H. split; [|split].
  - intros E. rewrite E in H. discriminate.
  - apply strip_head_ok.
  - apply strip_last_ok.
Qed.

Lemma solid_wrap (a b m : str) :
  a <> [] -> head_ok a -> b <> [] -> last_ok b -> solid (a ++ m ++ b).
Proof.
  intros Ha Hh Hb Hl. split; [|split].
  - destruct a; [congruence|discriminate].
  - destruct a; [congruence|exact Hh].
  - rewrite app_assoc. apply last_ok_app_r; assumption.
Qed.

Ltac closed_solid :=
  unfold solid; split; [|split];
  [ vm_compute; discriminate
  | vm_compute; reflexivity
  | vm_compute; reflexivity ].

Lemma notices_solid :
  solid BLANK_NOTICE /\ solid SHORT_NOTICE
  /\ (10 <= length BLANK_NOTICE)%nat /\ (10 <= length SHORT_NOTICE)%nat.
Proof.
  split; [closed_solid|]. split; [closed_solid|].
  split; vm_compute; lia.
Qed.

Lemma postprocess_cases (result : str) :
  (truthy (strip result) = false /\ _postprocess_result result = BLANK_NOTICE)
  \/ (truthy (strip result) = true /\ (length (strip result) < 10)%nat
      /\ _postprocess_result result = SHORT_NOTICE)
  \/ (truthy (strip result) = true /\ (10 <= length (strip result))%nat
      /\ _postprocess_result result = strip result).
Proof.
  unfold _postprocess_result, BLANK_NOTICE, SHORT_NOTICE.
  destruct (truthy (strip result)) eqn:Hs.
  - rewrite (OutputFormatterProps.strip_truthy _ Hs). cbn [negb orb]. cbv zeta.
    destruct (decide (length (strip result) < 10)%nat) as [Hlt|Hge].
    + rewrite bool_decide_eq_true_2 by exact Hlt. right. left.
      split; [reflexivity|]. split; [exact Hlt|reflexivity].
    + rewrite bool_decide_eq_false_2 by exact Hge. right. right.
      split; [reflexivity|]. split; [lia|reflexivity].
  - rewrite orb_true_r. left. split; reflexivity.
Qed.

Lemma postprocess_solid (result : str) :
  solid (_postprocess_result result)
  /\ (10 <= length (_postprocess_result result))%nat.
Proof.
  destruct notices_solid as (H1 & H2 & H3 & H4).
  destruct (postprocess_cases result)
    as [(_ & ->)|[(_ & _ & ->)|(Ht & Hlen & ->)]].
  - split; [exact H1|exact H3].
  - split; [exact H2|exact H4].
  - split; [apply solid_strip_of; exact Ht|exact Hlen].
Qed.

(** X11: [_postprocess_result] gives a text of at least ten characters
    that neither begins nor ends with whitespace: the trimmed result when
    that has ten characters or more, else one of two fixed notices (blank
    input, short input); applying it to its own output changes nothing. *)
Theorem postprocess_result_is_idempotent (result : str) :
  let out := _postprocess_result result in
  _postprocess_result out = out
  /\ (10 <= length out)%nat
  /\ head_ok out /\ last_ok out
  /\ ((truthy (strip result) = false /\ out = BLANK_NOTICE)
      \/ (truthy (strip result) = true /\ (length (strip result) < 10)%nat
          /\ out = SHORT_NOTICE)
      \/ (truthy (strip result) = true /\ (10 <= length (strip result))%nat
          /\ out = strip result)).
Proof.
  cbv zeta.
  destruct (postprocess_solid result) as [Hs Hlen].
  pose proof Hs as (_ & Hh & Hl).
  destruct (solid_strip _ Hs) as [Hid Ht].
  split; [|split; [exact Hlen|split; [exact Hh|split; [exact Hl|]]]].
  - destruct (postprocess_cases (_postprocess_result result))
      as [(Hf & _)|[(_ & Hlt & _)|(_ & _ & ->)]].
    + rewrite Ht in Hf. discriminate.
    + rewrite Hid in Hlt. lia.
    + exact Hid.
  - apply postprocess_cases.
Qed.

Section AgentTexts.
Context {B : Backend}.

Lemma format_error_response_solid (msg : str) :
  solid (_format_error_response msg).
Proof.
  unfold _format_error_response.
  destruct (contains (u "timeout") (lower msg)); [closed_solid|].
  destruct (contains (u "connection") (lower msg)); [closed_solid|].
  destruct (contains (u "permission") (lower msg)
            || contains (u "auth") (lower msg)); [closed_solid|].
  apply solid_wrap.
  - vm_compute. discriminate.
  - vm_compute. reflexivity.
  - vm_compute. discriminate.
  - vm_compute. reflexivity.
Qed.

(** X12: once the agent is there, [analyze_query] returns for every query
    and every behaviour of the agent, it does not raise; what it returns is
    never empty or blank, and neither begins nor ends with whitespace: the
    post-processed answer of the agent, or, if the agent call raised, the
    error text for its exception.  Without an agent it raises
    [RuntimeError] before anything is logged or called. *)
Theorem analyze_query_answers_with_text (query : str) (st : state) :
  (agent st = true ->
   exists body st',
     analyze_query query st = (Ok body, st')
     /\ truthy (strip body) = true
     /\ strip body = body
     /\ match agent_call (_preprocess_query query) (world st) with
        | (Ok r, w) =>
            body = _postprocess_result (_extract_response_text r)
            /\ world st' = w /\ length (logs st') = (length (logs st) + 2)%nat
        | (Raise e, w) =>
            body = _format_error_response (exn_text e)
            /\ world st' = w /\ length (logs st') = (length (logs st) + 2)%nat
        end)
  /\ (agent st = false ->
      analyze_query query st
      = (Raise (Exn RuntimeErrorK (u "智能体未初始化，请先调用 create_agent()")), st)).
Proof.
  split; intros Hagent.
  - unfold analyze_query, call_agent, log.
    unfold bind, try_except, ret, raise, get, modify. cbv beta iota.
    rewrite Hagent. cbn [negb world agent logs].
    destruct (agent_call (_preprocess_query query) (world st)) as [[r|e] w].
    + eexists _, _. split; [reflexivity|]. cbn [world logs].
      destruct (postprocess_solid (_extract_response_text r)) as [Hs _].
      destruct (solid_strip _ Hs) as [Hid Ht].
      split; [exact Ht|]. split; [exact Hid|].
      split; [reflexivity|]. split; [reflexivity|].
      rewrite !length_app. cbn [length]. lia.
    + eexists _, _. split; [reflexivity|]. cbn [world logs].
      destruct (solid_strip _ (format_error_response_solid (exn_text e)))
        as [Hid Ht].
      split; [exact Ht|]. split; [exact Hid|].
      split; [reflexivity|]. split; [reflexivity|].
      rewrite !length_app. cbn [length]. lia.
  - unfold analyze_query. unfold bind, get, raise.
    rewrite Hagent. reflexivity.
Qed.

End AgentTexts.

(** An agent that answers with the query it is given. *)
Definition echo_agent : Backend := {|
  World := unit;
  agent_call := fun q w => (Ok (Response (Some q) None None q), w);
  lower := ascii_lower
|}.

(** A run of X12: the echoing agent, asked about errors. *)
Lemma analyze_query_text_witness :
  let st := @State echo_agent true tt [] in
  agent st = true
  /\ exists st',
       @analyze_query echo_agent (u "errors today") st
       = (Ok (u "请分析：errors today"), st').
Proof.
  cbv zeta. split; [reflexivity|].
  destruct (@analyze_query_answers_with_text echo_agent (u "errors today")
              (@State echo_agent true tt [])) as [H _].
  destruct (H eq_refl) as (body & st' & Hr & _ & _ & Hm).
  exists st'. rewrite Hr. vm_compute in Hm. destruct Hm as (-> & _).
  vm_compute. reflexivity.
Defined.

(** ** The query sent to the agent *)

Definition KEYWORDS : list str := [u "分析"; u "统计"; u "查询"; u "显示"].

Lemma startswith_app (p s t : str) :
  startswith p s = true -> startswith p (s ++ t) = true.
Proof.
  revert s. induction p as [|a p IH]; intros s H; [reflexivity|].
  destruct s as [|b s]; [discriminate|]. cbn [startswith app] in *.
  apply andb_true_iff in H as [H1 H2]. rewrite H1, (IH _ H2). reflexivity.
Qed.

Lemma contains_app (p s t : str) :
  contains p s = true -> contains p (s ++ t) = true.
Proof.
  induction s as [|c s IH]; intros H.
  - cbn [contains] in H. rewrite orb_false_r in H.
    destruct p; [|discriminate]. destruct t; reflexivity.
  - cbn [contains app] in *. apply orb_true_iff in H as [H|H].
    + change (c :: s ++ t) with ((c :: s) ++ t).
      rewrite (startswith_app _ _ _ H). reflexivity.
    + rewrite (IH H). apply orb_true_r.
Qed.

Section Preprocess.
Context {B : Backend}.

(** [str.lower] leaves the prefix alone: its characters have no case. *)
Hypothesis lower_keeps_prefix :
  forall s, contains (u "分析") (lower (QUERY_PREFIX ++ s)) = true.

Lemma prefixed_solid (q : str) :
  head_ok q -> last_ok q -> solid (QUERY_PREFIX ++ q).
Proof.
  intros Hh Hl.
  assert (Hp : solid QUERY_PREFIX) by closed_solid.
  destruct Hp as (Hne & Hph & Hpl).
  destruct q as [|c q].
  - rewrite app_nil_r. repeat split; assumption.
  - split; [|split].
    + intros E. apply app_eq_nil in E as [E _]. exact (Hne E).
    + destruct QUERY_PREFIX; [congruence|exact Hph].
    + apply last_ok_app_r; [discriminate|exact Hl].
Qed.

(** X13: [_preprocess_query] trims the query and, unless its lower-cased
    text holds one of the four keywords, puts the request prefix before
    it; the result is trimmed, its lower-cased text holds a keyword, and
    preprocessing it again changes nothing. *)
Theorem preprocess_query_is_idempotent (query : str) :
  let out := _preprocess_query query in
  _preprocess_query out = out
  /\ strip out = out
  /\ existsb (fun keyword => contains keyword (lower out)) KEYWORDS = true
  /\ (out = strip query \/ out = QUERY_PREFIX ++ strip query).
Proof.
  cbv zeta. unfold _preprocess_query, KEYWORDS. unfold QUERY_PREFIX in *.
  cbv zeta.
  pose proof (strip_id _ (strip_head_ok query) (strip_last_ok query)) as Hq.
  set (q := strip query) in *.
  destruct (existsb (fun keyword => contains keyword (lower q)) _) eqn:Hk;
    cbn [negb].
  - rewrite Hq, Hk. cbn [negb]. auto.
  - destruct (prefixed_solid q (strip_head_ok query) (strip_last_ok query))
      as (_ & Hh & Hl).
    unfold QUERY_PREFIX in *.
    pose proof (strip_id _ Hh Hl) as Hid. rewrite Hid.
    assert (Hk2 : existsb (fun keyword =>
                             contains keyword (lower (u "请分析：" ++ q)))
                    [u "分析"; u "统计"; u "查询"; u "显示"] = true).
    { cbn [existsb]. rewrite lower_keeps_prefix. reflexivity. }
    rewrite Hk2. cbn [negb]. auto.
Qed.

End Preprocess.

Lemma ascii_lower_keeps_prefix (s : str) :
  contains (u "分析") (ascii_lower (QUERY_PREFIX ++ s)) = true.
Proof.
  unfold ascii_lower. rewrite map_app. apply contains_app.
  vm_compute. reflexivity.
Qed.

(** A run of X13 with the ASCII table for [lower]. *)
Lemma preprocess_query_witness :
  (forall s, contains (u "分析") (@lower echo_agent (QUERY_PREFIX ++ s)) = true)
  /\ @_preprocess_query echo_agent (u "  errors today ") = u "请分析：errors today"
  /\ @_preprocess_query echo_agent (u "请分析：errors today")
     = u "请分析：errors today".
Proof.
  split; [exact ascii_lower_keeps_prefix|].
  assert (E : @_preprocess_query echo_agent (u "  errors today ")
              = u "请分析：errors today") by (vm_compute; reflexivity).
  split; [exact E|].
  pose proof (@preprocess_query_is_idempotent echo_agent
                ascii_lower_keeps_prefix (u "  errors today ")) as (H & _).
  rewrite E in H. exact H.
Defined.

End AgentTextProps.
